(** * ITCH parser: the software reference model (Design/sim/itch_parser.py)

    A shallow embedding of the byte-at-a-time ITCH frame parser, of its
    type registry and of the message generators used to build test
    vectors, followed by the properties of the specification that were
    checked against them.

    Conventions of the embedding.
    - A Python [int] is a [Z]; a [bytes] / [bytearray] value is a [list Z]
      whose elements lie in [0, 256) (the constructors that Python checks
      are checked here as well).
    - A Python [str] is a [string]; its characters are the code points
      below 256, of which those below 128 are ASCII.
    - A Python [dict] is a [gmap].
    - A call that may raise returns a [result]: [Ok v] for a normal return,
      [Raise e] for an exception of class [e].  The state of the parser at
      the moment an exception escapes is not modelled.
    - A method that mutates [self] takes the parser and returns the new
      parser next to its return value. *)

From Stdlib Require Import ZArith List Lia Ascii String.
From stdpp Require Import gmap strings list fin_maps.

Local Open Scope Z_scope.

(** ** Exceptions *)

Inductive PyError : Set :=
  | ValueError
  | IndexError
  | KeyError
  | OverflowError
  | UnicodeEncodeError.

Inductive result (A : Type) : Type :=
  | Ok (a : A)
  | Raise (e : PyError).

Arguments Ok {A} a.
Arguments Raise {A} e.

#[global] Instance result_ret : MRet result := fun A a => Ok a.

#[global] Instance result_bind : MBind result := fun A B f r =>
  match r with
  | Ok a => f a
  | Raise e => Raise e
  end.

(** ** The Python primitives the parser uses *)

(** [ord(c)] *)
Definition ord (c : ascii) : Z := Z.of_N (N_of_ascii c).

(** Membership in [range(256)], the element type of [bytes]. *)
Definition is_byte (b : Z) : Prop := 0 <= b < 256.

#[global] Instance is_byte_dec (b : Z) : Decision (is_byte b).
Proof. unfold is_byte. apply _. Defined.

(** [bytearray(items)] and [bytes(items)]: [ValueError] unless every item is
    in [range(256)]. *)
Definition bytearray (items : list Z) : result (list Z) :=
  if decide (Forall is_byte items) then Ok items else Raise ValueError.

(** [buf.append(b)] *)
Definition bytearray_append (buf : list Z) (b : Z) : result (list Z) :=
  if decide (is_byte b) then Ok (buf ++ [b]) else Raise ValueError.

(** [bytes(n)]: [n] zero bytes. *)
Definition zeros (n : nat) : list Z := replicate n 0.

(** [buf[lo:hi]] for literal bounds [0 <= lo <= hi]; Python clamps both
    bounds to the length of [buf]. *)
Definition slice (lo hi : nat) (buf : list Z) : list Z :=
  take (hi - lo) (drop lo buf).

(** [buf[i]] for a literal [i >= 0]. *)
Definition getitem (buf : list Z) (i : nat) : result Z :=
  match buf !! i with
  | Some b => Ok b
  | None => Raise IndexError
  end.

(** [int.from_bytes(bs, 'big')] *)
Definition from_bytes (bs : list Z) : Z :=
  foldl (fun acc b => acc * 256 + b) 0 bs.

(** The [len] low base-256 digits of [n], most significant first. *)
Fixpoint be_digits (len : nat) (n : Z) : list Z :=
  match len with
  | O => []
  | S len' => be_digits len' (n / 256) ++ [n mod 256]
  end.

(** [n.to_bytes(len, 'big')]: [OverflowError] when [n] is negative or
    does not fit [len] bytes. *)
Definition to_bytes (n : Z) (len : nat) : result (list Z) :=
  if decide (0 <= n < 2 ^ (8 * Z.of_nat len)) then Ok (be_digits len n)
  else Raise OverflowError.

(** [s.ljust(width)]: pad with spaces on the right up to [width]. *)
Definition ljust (s : string) (width : nat) : string :=
  String.append s
    (string_of_list_ascii (replicate (width - String.length s) " "%char)).

(** [s[:n]] *)
Definition str_take (n : nat) (s : string) : string := String.substring 0 n s.

(** [s.encode('ascii')]: [UnicodeEncodeError] on a character outside
    ASCII. *)
Fixpoint encode_ascii (s : string) : result (list Z) :=
  match s with
  | EmptyString => Ok []
  | String c s' =>
      if decide (ord c < 128) then bs ← encode_ascii s'; Ok (ord c :: bs)
      else Raise UnicodeEncodeError
  end.

(** ** Type registry *)

Inductive MessageType : Set :=
  | ADD_ORDER
  | CANCEL_ORDER
  | DELETE_ORDER
  | EXECUTED_ORDER
  | REPLACE_ORDER
  | TRADE
  | ADD_ORDER_MPID
  | EXECUTED_PRICE
  | BROKEN_TRADE.

(** The integer value of a member of the [IntEnum]. *)
Definition MessageType_value (t : MessageType) : Z :=
  match t with
  | ADD_ORDER => 0
  | CANCEL_ORDER => 1
  | DELETE_ORDER => 2
  | EXECUTED_ORDER => 3
  | REPLACE_ORDER => 4
  | TRADE => 5
  | ADD_ORDER_MPID => 6
  | EXECUTED_PRICE => 7
  | BROKEN_TRADE => 8
  end.

Definition MessageType_of_value (v : Z) : option MessageType :=
  match v with
  | 0 => Some ADD_ORDER
  | 1 => Some CANCEL_ORDER
  | 2 => Some DELETE_ORDER
  | 3 => Some EXECUTED_ORDER
  | 4 => Some REPLACE_ORDER
  | 5 => Some TRADE
  | 6 => Some ADD_ORDER_MPID
  | 7 => Some EXECUTED_PRICE
  | 8 => Some BROKEN_TRADE
  | _ => None
  end.

#[global] Instance MessageType_eq_dec : EqDecision MessageType.
Proof. solve_decision. Defined.

#[global] Instance MessageType_countable : Countable MessageType.
Proof.
  refine (inj_countable MessageType_value MessageType_of_value _).
  intros []; reflexivity.
Defined.

(** Message type character to enum mapping. *)
Definition MSG_CHAR_TO_TYPE : gmap Z MessageType :=
  list_to_map
    [(ord "A", ADD_ORDER);
     (ord "X", CANCEL_ORDER);
     (ord "D", DELETE_ORDER);
     (ord "E", EXECUTED_ORDER);
     (ord "U", REPLACE_ORDER);
     (ord "P", TRADE);
     (ord "F", ADD_ORDER_MPID);
     (ord "C", EXECUTED_PRICE);
     (ord "B", BROKEN_TRADE)].

(** Message lengths (including type byte). *)
Definition MSG_LENGTHS : gmap MessageType Z :=
  list_to_map
    [(ADD_ORDER, 36);
     (CANCEL_ORDER, 23);
     (DELETE_ORDER, 9);
     (EXECUTED_ORDER, 30);
     (REPLACE_ORDER, 27);
     (TRADE, 40);
     (ADD_ORDER_MPID, 40);
     (EXECUTED_PRICE, 36);
     (BROKEN_TRADE, 19)].

(** [d[k]] on a dict: [KeyError] when [k] is absent. *)
Definition dict_get `{Countable K} {V} (d : gmap K V) (k : K) : result V :=
  match d !! k with
  | Some v => Ok v
  | None => Raise KeyError
  end.

(** The table of Design/sim/ITCH_config.py, keyed by name. *)
Module ITCH_config.

Definition MSG_LENGTHS : gmap string Z :=
  list_to_map
    [("add"%string, 36);
     ("cancel"%string, 23);
     ("replace"%string, 27);
     ("delete"%string, 9);
     ("executed"%string, 30);
     ("trade"%string, 40);
     ("add_mpid"%string, 40);
     ("broken_trade"%string, 19);
     ("executed_price"%string, 36)].

End ITCH_config.

(** ** Parsed message *)

(** Parsed ITCH message with canonical fields.  [msg_type] holds what the
    Python attribute holds: an [int] (a member of the [IntEnum] is its
    value), or [None] when the parser had no type. *)
Module ParsedMessage.

Record t : Type := make {
  valid : bool;
  msg_type : option Z;
  order_ref : Z;
  side : Z;            (* 0 = Buy, 1 = Sell *)
  shares : Z;
  price : Z;
  new_order_ref : Z;
  timestamp : Z;
  misc_data : Z        (* stock symbol or match_id depending on message type *)
}.

(** [ParsedMessage(valid=v, msg_type=ty)], the other fields at their
    dataclass defaults. *)
Definition init (v : bool) (ty : option Z) : t :=
  make v ty 0 0 0 0 0 0 0.

(** [ParsedMessage()] and [ParsedMessage(valid=False)]: the default of
    [valid] is [False], the default of [msg_type] is [0]. *)
Definition default : t := init false (Some 0).

Definition set_order_ref (m : t) (v : Z) : t :=
  make (valid m) (msg_type m) v (side m) (shares m) (price m)
       (new_order_ref m) (timestamp m) (misc_data m).
Definition set_side (m : t) (v : Z) : t :=
  make (valid m) (msg_type m) (order_ref m) v (shares m) (price m)
       (new_order_ref m) (timestamp m) (misc_data m).
Definition set_shares (m : t) (v : Z) : t :=
  make (valid m) (msg_type m) (order_ref m) (side m) v (price m)
       (new_order_ref m) (timestamp m) (misc_data m).
Definition set_price (m : t) (v : Z) : t :=
  make (valid m) (msg_type m) (order_ref m) (side m) (shares m) v
       (new_order_ref m) (timestamp m) (misc_data m).
Definition set_new_order_ref (m : t) (v : Z) : t :=
  make (valid m) (msg_type m) (order_ref m) (side m) (shares m) (price m)
       v (timestamp m) (misc_data m).
Definition set_timestamp (m : t) (v : Z) : t :=
  make (valid m) (msg_type m) (order_ref m) (side m) (shares m) (price m)
       (new_order_ref m) v (misc_data m).
Definition set_misc_data (m : t) (v : Z) : t :=
  make (valid m) (msg_type m) (order_ref m) (side m) (shares m) (price m)
       (new_order_ref m) (timestamp m) v.

End ParsedMessage.

(** ** The parser *)

Module ITCHParser.

Import ParsedMessage.

Record t : Type := make {
  byte_index : Z;
  msg_type : option MessageType;
  msg_length : Z;
  buffer : list Z;
  _result : ParsedMessage.t
}.

(** [reset]: every attribute is overwritten, so the state after the call
    does not depend on the state before it. *)
Definition reset (self : t) : t :=
  {| byte_index := 0;
     msg_type := None;
     msg_length := 0;
     buffer := [];
     _result := ParsedMessage.default |}.

(** [__init__] calls [reset] on the new object. *)
Definition __init__ : t :=
  {| byte_index := 0;
     msg_type := None;
     msg_length := 0;
     buffer := [];
     _result := ParsedMessage.default |}.

(** Decode the buffered message into canonical fields. *)
Definition _decode_message (self : t) : result ParsedMessage.t :=
  let msg := ParsedMessage.init true (MessageType_value <$> msg_type self) in
  let buf := buffer self in
  match msg_type self with
  | Some DELETE_ORDER =>
      let msg := set_order_ref msg (from_bytes (slice 1 9 buf)) in
      Ok msg
  | Some ADD_ORDER =>
      let msg := set_timestamp msg (from_bytes (slice 1 7 buf)) in
      let msg := set_order_ref msg (from_bytes (slice 7 15 buf)) in
      b ← getitem buf 15;
      let msg := set_side msg (if decide (b = ord "S") then 1 else 0) in
      let msg := set_shares msg (from_bytes (slice 16 20 buf)) in
      let msg := set_misc_data msg (from_bytes (slice 20 28 buf)) in
      let msg := set_price msg (from_bytes (slice 28 32 buf)) in
      Ok msg
  | Some CANCEL_ORDER =>
      let msg := set_timestamp msg (from_bytes (slice 1 7 buf)) in
      let msg := set_order_ref msg (from_bytes (slice 7 15 buf)) in
      let msg := set_shares msg (from_bytes (slice 15 19 buf)) in
      Ok msg
  | Some EXECUTED_ORDER =>
      let msg := set_timestamp msg (from_bytes (slice 1 7 buf)) in
      let msg := set_order_ref msg (from_bytes (slice 7 15 buf)) in
      let msg := set_shares msg (from_bytes (slice 15 19 buf)) in
      let msg := set_misc_data msg (from_bytes (slice 19 27 buf)) in
      Ok msg
  | Some REPLACE_ORDER =>
      let msg := set_timestamp msg (from_bytes (slice 1 7 buf)) in
      let msg := set_order_ref msg (from_bytes (slice 7 15 buf)) in
      let msg := set_new_order_ref msg (from_bytes (slice 15 23 buf)) in
      let msg := set_shares msg (from_bytes (slice 23 27 buf)) in
      Ok msg
  | Some TRADE =>
      let msg := set_timestamp msg (from_bytes (slice 1 7 buf)) in
      let msg := set_order_ref msg (from_bytes (slice 7 15 buf)) in
      b ← getitem buf 15;
      let msg := set_side msg (if decide (b = ord "S") then 1 else 0) in
      let msg := set_shares msg (from_bytes (slice 16 20 buf)) in
      let msg := set_price msg (from_bytes (slice 28 32 buf)) in
      let msg := set_misc_data msg (from_bytes (slice 32 40 buf)) in
      Ok msg
  | Some ADD_ORDER_MPID =>
      let msg := set_timestamp msg (from_bytes (slice 1 7 buf)) in
      let msg := set_order_ref msg (from_bytes (slice 7 15 buf)) in
      b ← getitem buf 15;
      let msg := set_side msg (if decide (b = ord "S") then 1 else 0) in
      let msg := set_shares msg (from_bytes (slice 16 20 buf)) in
      let msg := set_misc_data msg (from_bytes (slice 20 28 buf)) in
      let msg := set_price msg (from_bytes (slice 28 32 buf)) in
      Ok msg
  | Some EXECUTED_PRICE =>
      let msg := set_timestamp msg (from_bytes (slice 1 7 buf)) in
      let msg := set_order_ref msg (from_bytes (slice 7 15 buf)) in
      let msg := set_shares msg (from_bytes (slice 15 19 buf)) in
      let msg := set_misc_data msg (from_bytes (slice 19 27 buf)) in
      let msg := set_price msg (from_bytes (slice 28 32 buf)) in
      Ok msg
  | Some BROKEN_TRADE =>
      let msg := set_timestamp msg (from_bytes (slice 1 7 buf)) in
      let msg := set_misc_data msg (from_bytes (slice 7 15 buf)) in
      Ok msg
  | None => Ok msg
  end.

(** The end of [feed_byte], from [self.byte_index += 1] on, which both
    branches of the first test fall through to. *)
Definition feed_byte_count (self : t) : result (ParsedMessage.t * t) :=
  let self :=
    {| byte_index := byte_index self + 1;
       msg_type := msg_type self;
       msg_length := msg_length self;
       buffer := buffer self;
       _result := _result self |} in
  (* Check if message is complete *)
  if decide (byte_index self >= msg_length self) then
    result ← _decode_message self;
    Ok (result, reset self)
  else
    Ok (ParsedMessage.default, self).

(** Feed a single byte to the parser. *)
Definition feed_byte (self : t) (byte : Z) : result (ParsedMessage.t * t) :=
  (* Byte 0: message type detection *)
  if decide (byte_index self = 0) then
    match MSG_CHAR_TO_TYPE !! byte with
    | Some ty =>
        len ← dict_get MSG_LENGTHS ty;
        buf ← bytearray [byte];
        feed_byte_count
          {| byte_index := byte_index self;
             msg_type := Some ty;
             msg_length := len;
             buffer := buf;
             _result := _result self |}
    | None =>
        (* Unknown message type *)
        Ok (ParsedMessage.default, reset self)
    end
  else
    buf ← bytearray_append (buffer self) byte;
    feed_byte_count
      {| byte_index := byte_index self;
         msg_type := msg_type self;
         msg_length := msg_length self;
         buffer := buf;
         _result := _result self |}.

(** The [for] loop of [parse_message]. *)
Fixpoint parse_loop (self : t) (data : list Z)
  : result (ParsedMessage.t * t) :=
  match data with
  | [] => Ok (ParsedMessage.default, self)
  | byte :: data' =>
      r ← feed_byte self byte;
      if valid r.1 then Ok r else parse_loop r.2 data'
  end.

(** Parse a complete message at once. *)
Definition parse_message (self : t) (data : list Z)
  : result (ParsedMessage.t * t) :=
  parse_loop (reset self) data.

End ITCHParser.

(** ** Message generators (for testing) *)

(** Generate DELETE order message. *)
Definition gen_delete_order (order_ref : Z) : result (list Z) :=
  o ← to_bytes order_ref 8;
  Ok ([ord "D"] ++ o).

(** [ord('S') if side == 'S' else ord('B')] *)
Definition side_byte (side : string) : Z :=
  if decide (side = "S"%string) then ord "S" else ord "B".

(** Generate ADD order message (36 bytes). *)
Definition gen_add_order (timestamp order_ref : Z) (side : string)
    (shares : Z) (stock : string) (price : Z) : result (list Z) :=
  stock_bytes ← encode_ascii (str_take 8 (ljust stock 8));
  let side_byte := side_byte side in
  t ← to_bytes timestamp 6;
  o ← to_bytes order_ref 8;
  s ← to_bytes shares 4;
  p ← to_bytes price 4;
  Ok ([ord "A"] ++ t ++ o ++ [side_byte] ++ s ++ stock_bytes ++ p ++ zeros 4).

(** Generate CANCEL order message. *)
Definition gen_cancel_order (timestamp order_ref canceled_shares : Z)
    : result (list Z) :=
  t ← to_bytes timestamp 6;
  o ← to_bytes order_ref 8;
  s ← to_bytes canceled_shares 4;
  Ok ([ord "X"] ++ t ++ o ++ s ++ zeros 4).

(** Generate EXECUTED order message. *)
Definition gen_executed_order (timestamp order_ref executed_shares match_id : Z)
    : result (list Z) :=
  t ← to_bytes timestamp 6;
  o ← to_bytes order_ref 8;
  s ← to_bytes executed_shares 4;
  m ← to_bytes match_id 8;
  Ok ([ord "E"] ++ t ++ o ++ s ++ m ++ zeros 3).

(** Generate REPLACE order message. *)
Definition gen_replace_order (timestamp old_order_ref new_order_ref shares : Z)
    : result (list Z) :=
  t ← to_bytes timestamp 6;
  o ← to_bytes old_order_ref 8;
  n ← to_bytes new_order_ref 8;
  s ← to_bytes shares 4;
  Ok ([ord "U"] ++ t ++ o ++ n ++ s).

(** Generate TRADE message. *)
Definition gen_trade (timestamp order_ref : Z) (side : string) (shares : Z)
    (stock : string) (price match_id : Z) : result (list Z) :=
  stock_bytes ← encode_ascii (str_take 8 (ljust stock 8));
  let side_byte := side_byte side in
  t ← to_bytes timestamp 6;
  o ← to_bytes order_ref 8;
  s ← to_bytes shares 4;
  p ← to_bytes price 4;
  m ← to_bytes match_id 8;
  Ok ([ord "P"] ++ t ++ o ++ [side_byte] ++ s ++ stock_bytes ++ p ++ m).

(** Generate ADD ORDER with MPID message (40 bytes). *)
Definition gen_add_order_mpid (timestamp order_ref : Z) (side : string)
    (shares : Z) (stock : string) (price : Z) (mpid : string)
    : result (list Z) :=
  stock_bytes ← encode_ascii (str_take 8 (ljust stock 8));
  mpid_bytes ← encode_ascii (str_take 4 (ljust mpid 4));
  let side_byte := side_byte side in
  t ← to_bytes timestamp 6;
  o ← to_bytes order_ref 8;
  s ← to_bytes shares 4;
  p ← to_bytes price 4;
  Ok ([ord "F"] ++ t ++ o ++ [side_byte] ++ s ++ stock_bytes ++ p
        ++ mpid_bytes ++ zeros 4).

(** Generate EXECUTED with PRICE message (36 bytes). *)
Definition gen_executed_price (timestamp order_ref executed_shares match_id : Z)
    (printable : bool) (exec_price : Z) : result (list Z) :=
  t ← to_bytes timestamp 6;
  o ← to_bytes order_ref 8;
  s ← to_bytes executed_shares 4;
  m ← to_bytes match_id 8;
  p ← to_bytes exec_price 4;
  Ok ([ord "C"] ++ t ++ o ++ s ++ m
        ++ [if printable then ord "Y" else ord "N"] ++ p ++ zeros 4).

(** Generate BROKEN TRADE message. *)
Definition gen_broken_trade (timestamp match_id : Z) : result (list Z) :=
  t ← to_bytes timestamp 6;
  m ← to_bytes match_id 8;
  Ok ([ord "B"] ++ t ++ m ++ zeros 4).

(** * Vocabulary of the statements *)

(** Definitions the properties below are stated with; none of them is
    part of the program. *)

(** Every character of [s] is ASCII. *)
Definition ascii_only (s : string) : Prop :=
  Forall (fun c => ord c < 128) (list_ascii_of_string s).

#[global] Instance ascii_only_dec (s : string) : Decision (ascii_only s).
Proof. unfold ascii_only. apply _. Defined.

(** The code points of [s], one byte each. *)
Definition code_points (s : string) : list Z :=
  ord <$> list_ascii_of_string s.

(** [s.ljust(width)[:width]] as [bytes]. *)
Definition padded (s : string) (width : nat) : list Z :=
  code_points (str_take width (ljust s width)).

(** The tag byte of a kind, read off [MSG_CHAR_TO_TYPE]. *)
Definition tag_of (ty : MessageType) : Z :=
  match ty with
  | ADD_ORDER => ord "A"
  | CANCEL_ORDER => ord "X"
  | DELETE_ORDER => ord "D"
  | EXECUTED_ORDER => ord "E"
  | REPLACE_ORDER => ord "U"
  | TRADE => ord "P"
  | ADD_ORDER_MPID => ord "F"
  | EXECUTED_PRICE => ord "C"
  | BROKEN_TRADE => ord "B"
  end.

(** The frame length of a kind, read off [MSG_LENGTHS]. *)
Definition frame_length (ty : MessageType) : nat :=
  match ty with
  | ADD_ORDER => 36
  | CANCEL_ORDER => 23
  | DELETE_ORDER => 9
  | EXECUTED_ORDER => 30
  | REPLACE_ORDER => 27
  | TRADE => 40
  | ADD_ORDER_MPID => 40
  | EXECUTED_PRICE => 36
  | BROKEN_TRADE => 19
  end.

(** Streaming use of the parser: every byte of [data] goes through
    [feed_byte], and the results come back in order. *)
Fixpoint feed_all (self : ITCHParser.t) (data : list Z)
  : result (list ParsedMessage.t * ITCHParser.t) :=
  match data with
  | [] => Ok ([], self)
  | byte :: data' =>
      r ← ITCHParser.feed_byte self byte;
      rs ← feed_all r.2 data';
      Ok (r.1 :: rs.1, rs.2)
  end.

(** The state of a parser that was reset and has then consumed the bytes
    [buf] of a frame of kind [ty]. *)
Definition accumulating (ty : MessageType) (buf : list Z) : ITCHParser.t :=
  {| ITCHParser.byte_index := Z.of_nat (length buf);
     ITCHParser.msg_type := Some ty;
     ITCHParser.msg_length := Z.of_nat (frame_length ty);
     ITCHParser.buffer := buf;
     ITCHParser._result := ParsedMessage.default |}.

(** [frame] is a complete frame of kind [ty]: its first byte is a tag that
    [MSG_CHAR_TO_TYPE] maps to [ty], its length is the one [MSG_LENGTHS]
    gives for [ty], and it holds bytes. *)
Definition is_frame (ty : MessageType) (frame : list Z) : Prop :=
  (tag ← head frame; MSG_CHAR_TO_TYPE !! tag) = Some ty
  /\ MSG_LENGTHS !! ty = Some (Z.of_nat (length frame))
  /\ Forall is_byte frame.

#[global] Instance is_frame_dec ty frame : Decision (is_frame ty frame).
Proof. unfold is_frame. apply _. Defined.

(** An invariant of the states a parser reaches from [__init__] on bytes:
    it is idle, or it is inside a frame, short of its length. *)
Definition reachable (s : ITCHParser.t) : Prop :=
  s = ITCHParser.__init__
  \/ exists ty buf,
       s = accumulating ty buf
       /\ (0 < length buf < frame_length ty)%nat.

(** The first result with [valid=True] among the results of a stream. *)
Fixpoint first_valid (rs : list ParsedMessage.t) : option ParsedMessage.t :=
  match rs with
  | [] => None
  | m :: rs' => if ParsedMessage.valid m then Some m else first_valid rs'
  end.

(** A message to encode: the kind, with the arguments of its generator. *)
Inductive Fields : Type :=
  | DeleteOrder (order_ref : Z)
  | AddOrder (timestamp order_ref : Z) (side : string) (shares : Z)
      (stock : string) (price : Z)
  | CancelOrder (timestamp order_ref canceled_shares : Z)
  | ExecutedOrder (timestamp order_ref executed_shares match_id : Z)
  | ReplaceOrder (timestamp old_order_ref new_order_ref shares : Z)
  | Trade (timestamp order_ref : Z) (side : string) (shares : Z)
      (stock : string) (price match_id : Z)
  | AddOrderWithMpid (timestamp order_ref : Z) (side : string) (shares : Z)
      (stock : string) (price : Z) (mpid : string)
  | ExecutedWithPrice (timestamp order_ref executed_shares match_id : Z)
      (printable : bool) (exec_price : Z)
  | BrokenTrade (timestamp match_id : Z).

Definition kind_of (f : Fields) : MessageType :=
  match f with
  | DeleteOrder _ => DELETE_ORDER
  | AddOrder _ _ _ _ _ _ => ADD_ORDER
  | CancelOrder _ _ _ => CANCEL_ORDER
  | ExecutedOrder _ _ _ _ => EXECUTED_ORDER
  | ReplaceOrder _ _ _ _ => REPLACE_ORDER
  | Trade _ _ _ _ _ _ _ => TRADE
  | AddOrderWithMpid _ _ _ _ _ _ _ => ADD_ORDER_MPID
  | ExecutedWithPrice _ _ _ _ _ _ => EXECUTED_PRICE
  | BrokenTrade _ _ => BROKEN_TRADE
  end.

(** The generator of each kind, applied to its arguments. *)
Definition encode (f : Fields) : result (list Z) :=
  match f with
  | DeleteOrder o => gen_delete_order o
  | AddOrder t o sd sh st p => gen_add_order t o sd sh st p
  | CancelOrder t o sh => gen_cancel_order t o sh
  | ExecutedOrder t o sh m => gen_executed_order t o sh m
  | ReplaceOrder t o n sh => gen_replace_order t o n sh
  | Trade t o sd sh st p m => gen_trade t o sd sh st p m
  | AddOrderWithMpid t o sd sh st p mp => gen_add_order_mpid t o sd sh st p mp
  | ExecutedWithPrice t o sh m pr p => gen_executed_price t o sh m pr p
  | BrokenTrade t m => gen_broken_trade t m
  end.

(** [n] is an unsigned integer of [w] bits. *)
Definition unsigned (w : Z) (n : Z) : Prop := 0 <= n < 2 ^ w.

#[global] Instance unsigned_dec w n : Decision (unsigned w n).
Proof. unfold unsigned. apply _. Defined.

(** Every field fits its wire width and every text field is ASCII. *)
Definition wire_ok (f : Fields) : Prop :=
  match f with
  | DeleteOrder o => unsigned 64 o
  | AddOrder t o sd sh st p =>
      unsigned 48 t /\ unsigned 64 o /\ unsigned 32 sh /\ unsigned 32 p
      /\ ascii_only st
  | CancelOrder t o sh => unsigned 48 t /\ unsigned 64 o /\ unsigned 32 sh
  | ExecutedOrder t o sh m =>
      unsigned 48 t /\ unsigned 64 o /\ unsigned 32 sh /\ unsigned 64 m
  | ReplaceOrder t o n sh =>
      unsigned 48 t /\ unsigned 64 o /\ unsigned 64 n /\ unsigned 32 sh
  | Trade t o sd sh st p m =>
      unsigned 48 t /\ unsigned 64 o /\ unsigned 32 sh /\ unsigned 32 p
      /\ unsigned 64 m /\ ascii_only st
  | AddOrderWithMpid t o sd sh st p mp =>
      unsigned 48 t /\ unsigned 64 o /\ unsigned 32 sh /\ unsigned 32 p
      /\ ascii_only st /\ ascii_only mp
  | ExecutedWithPrice t o sh m pr p =>
      unsigned 48 t /\ unsigned 64 o /\ unsigned 32 sh /\ unsigned 64 m
      /\ unsigned 32 p
  | BrokenTrade t m => unsigned 48 t /\ unsigned 64 m
  end.

(** The side argument is ['B'] or ['S'], for the kinds that take one. *)
Definition side_ok (f : Fields) : Prop :=
  match f with
  | AddOrder _ _ sd _ _ _
  | Trade _ _ sd _ _ _ _
  | AddOrderWithMpid _ _ sd _ _ _ _ => sd = "B"%string \/ sd = "S"%string
  | _ => True
  end.

(** Sell is 1 and Buy is 0. *)
Definition side_code (sd : string) : Z :=
  if decide (sd = "S"%string) then 1 else 0.

(** The record the round trip is expected to give: the fields the kind
    defines hold the encoded values, the other fields their defaults. *)
Definition expected (f : Fields) : ParsedMessage.t :=
  let ty := Some (MessageType_value (kind_of f)) in
  match f with
  | DeleteOrder o =>
      {| ParsedMessage.valid := true; ParsedMessage.msg_type := ty;
         ParsedMessage.order_ref := o; ParsedMessage.side := 0;
         ParsedMessage.shares := 0; ParsedMessage.price := 0;
         ParsedMessage.new_order_ref := 0; ParsedMessage.timestamp := 0;
         ParsedMessage.misc_data := 0 |}
  | AddOrder t o sd sh st p =>
      {| ParsedMessage.valid := true; ParsedMessage.msg_type := ty;
         ParsedMessage.order_ref := o; ParsedMessage.side := side_code sd;
         ParsedMessage.shares := sh; ParsedMessage.price := p;
         ParsedMessage.new_order_ref := 0; ParsedMessage.timestamp := t;
         ParsedMessage.misc_data := from_bytes (padded st 8) |}
  | CancelOrder t o sh =>
      {| ParsedMessage.valid := true; ParsedMessage.msg_type := ty;
         ParsedMessage.order_ref := o; ParsedMessage.side := 0;
         ParsedMessage.shares := sh; ParsedMessage.price := 0;
         ParsedMessage.new_order_ref := 0; ParsedMessage.timestamp := t;
         ParsedMessage.misc_data := 0 |}
  | ExecutedOrder t o sh m =>
      {| ParsedMessage.valid := true; ParsedMessage.msg_type := ty;
         ParsedMessage.order_ref := o; ParsedMessage.side := 0;
         ParsedMessage.shares := sh; ParsedMessage.price := 0;
         ParsedMessage.new_order_ref := 0; ParsedMessage.timestamp := t;
         ParsedMessage.misc_data := m |}
  | ReplaceOrder t o n sh =>
      {| ParsedMessage.valid := true; ParsedMessage.msg_type := ty;
         ParsedMessage.order_ref := o; ParsedMessage.side := 0;
         ParsedMessage.shares := sh; ParsedMessage.price := 0;
         ParsedMessage.new_order_ref := n; ParsedMessage.timestamp := t;
         ParsedMessage.misc_data := 0 |}
  | Trade t o sd sh st p m =>
      {| ParsedMessage.valid := true; ParsedMessage.msg_type := ty;
         ParsedMessage.order_ref := o; ParsedMessage.side := side_code sd;
         ParsedMessage.shares := sh; ParsedMessage.price := p;
         ParsedMessage.new_order_ref := 0; ParsedMessage.timestamp := t;
         ParsedMessage.misc_data := m |}
  | AddOrderWithMpid t o sd sh st p mp =>
      {| ParsedMessage.valid := true; ParsedMessage.msg_type := ty;
         ParsedMessage.order_ref := o; ParsedMessage.side := side_code sd;
         ParsedMessage.shares := sh; ParsedMessage.price := p;
         ParsedMessage.new_order_ref := 0; ParsedMessage.timestamp := t;
         ParsedMessage.misc_data := from_bytes (padded st 8) |}
  | ExecutedWithPrice t o sh m pr p =>
      {| ParsedMessage.valid := true; ParsedMessage.msg_type := ty;
         ParsedMessage.order_ref := o; ParsedMessage.side := 0;
         ParsedMessage.shares := sh; ParsedMessage.price := p;
         ParsedMessage.new_order_ref := 0; ParsedMessage.timestamp := t;
         ParsedMessage.misc_data := m |}
  | BrokenTrade t m =>
      {| ParsedMessage.valid := true; ParsedMessage.msg_type := ty;
         ParsedMessage.order_ref := 0; ParsedMessage.side := 0;
         ParsedMessage.shares := 0; ParsedMessage.price := 0;
         ParsedMessage.new_order_ref := 0; ParsedMessage.timestamp := t;
         ParsedMessage.misc_data := m |}
  end.

(** The bytes a generator returns when none of its conversions raises. *)
Definition layout (f : Fields) : list Z :=
  match f with
  | DeleteOrder o => [ord "D"] ++ be_digits 8 o
  | AddOrder t o sd sh st p =>
      [ord "A"] ++ be_digits 6 t ++ be_digits 8 o ++ [side_byte sd]
        ++ be_digits 4 sh ++ padded st 8 ++ be_digits 4 p ++ zeros 4
  | CancelOrder t o sh =>
      [ord "X"] ++ be_digits 6 t ++ be_digits 8 o ++ be_digits 4 sh ++ zeros 4
  | ExecutedOrder t o sh m =>
      [ord "E"] ++ be_digits 6 t ++ be_digits 8 o ++ be_digits 4 sh
        ++ be_digits 8 m ++ zeros 3
  | ReplaceOrder t o n sh =>
      [ord "U"] ++ be_digits 6 t ++ be_digits 8 o ++ be_digits 8 n
        ++ be_digits 4 sh
  | Trade t o sd sh st p m =>
      [ord "P"] ++ be_digits 6 t ++ be_digits 8 o ++ [side_byte sd]
        ++ be_digits 4 sh ++ padded st 8 ++ be_digits 4 p ++ be_digits 8 m
  | AddOrderWithMpid t o sd sh st p mp =>
      [ord "F"] ++ be_digits 6 t ++ be_digits 8 o ++ [side_byte sd]
        ++ be_digits 4 sh ++ padded st 8 ++ be_digits 4 p ++ padded mp 4
        ++ zeros 4
  | ExecutedWithPrice t o sh m pr p =>
      [ord "C"] ++ be_digits 6 t ++ be_digits 8 o ++ be_digits 4 sh
        ++ be_digits 8 m ++ [if pr then ord "Y" else ord "N"]
        ++ be_digits 4 p ++ zeros 4
  | BrokenTrade t m =>
      [ord "B"] ++ be_digits 6 t ++ be_digits 8 m ++ zeros 4
  end.

#[global] Instance wire_ok_dec (f : Fields) : Decision (wire_ok f).
Proof. destruct f; simpl; apply _. Defined.

#[global] Instance side_ok_dec (f : Fields) : Decision (side_ok f).
Proof. destruct f; simpl; apply _. Defined.

(** Test vectors of the test suite ([run_tests], tests 2 and 6). *)
Definition test_add_order : Fields :=
  AddOrder 0x000001020304 0x1122334455667788 "B" 1000 "APPL" 100000.

Definition test_trade : Fields :=
  Trade 0x000000009ABC 0x5555666677778888 "S" 100 "MSFT" 350000
    0x1234567890ABCDEF.

(** The 9 tag bytes: A X D E U P F C B. *)
Definition tag_bytes : list Z :=
  [0x41; 0x58; 0x44; 0x45; 0x55; 0x50; 0x46; 0x43; 0x42].

(** The frame of test 1 of the test suite: DeleteOrder 0x0102030405060708. *)
Definition test_delete_frame : list Z :=
  [0x44; 0x01; 0x02; 0x03; 0x04; 0x05; 0x06; 0x07; 0x08].

(** The kinds that define a side field. *)
Definition has_side (ty : MessageType) : Prop :=
  ty = ADD_ORDER \/ ty = TRADE \/ ty = ADD_ORDER_MPID.

#[global] Instance has_side_dec ty : Decision (has_side ty).
Proof. unfold has_side. apply _. Defined.

(** An AddOrder frame whose side byte is ['x'], neither ['S'] nor ['B']. *)
Definition odd_side_frame : list Z :=
  [0x41] ++ replicate 14 0 ++ [0x78] ++ replicate 20 0.

(** The initial state: counter 0, no kind, target length cleared, empty
    buffer. *)
Definition is_initial (s : ITCHParser.t) : Prop :=
  ITCHParser.byte_index s = 0
  /\ ITCHParser.msg_type s = None
  /\ ITCHParser.msg_length s = 0
  /\ ITCHParser.buffer s = [].

(** * Vocabulary of the further properties *)

(** The integer arguments of a generator fit their wire widths. *)
Definition ints_ok (f : Fields) : Prop :=
  match f with
  | DeleteOrder o => unsigned 64 o
  | AddOrder t o _ sh _ p
  | AddOrderWithMpid t o _ sh _ p _ =>
      unsigned 48 t /\ unsigned 64 o /\ unsigned 32 sh /\ unsigned 32 p
  | CancelOrder t o sh => unsigned 48 t /\ unsigned 64 o /\ unsigned 32 sh
  | ExecutedOrder t o sh m =>
      unsigned 48 t /\ unsigned 64 o /\ unsigned 32 sh /\ unsigned 64 m
  | ReplaceOrder t o n sh =>
      unsigned 48 t /\ unsigned 64 o /\ unsigned 64 n /\ unsigned 32 sh
  | Trade t o _ sh _ p m =>
      unsigned 48 t /\ unsigned 64 o /\ unsigned 32 sh /\ unsigned 32 p
      /\ unsigned 64 m
  | ExecutedWithPrice t o sh m _ p =>
      unsigned 48 t /\ unsigned 64 o /\ unsigned 32 sh /\ unsigned 64 m
      /\ unsigned 32 p
  | BrokenTrade t m => unsigned 48 t /\ unsigned 64 m
  end.

#[global] Instance ints_ok_dec (f : Fields) : Decision (ints_ok f).
Proof. destruct f; simpl; apply _. Defined.

(** The part of each text argument that a generator keeps is ASCII: the
    first 8 characters of the stock, the first 4 of the MPID. *)
Definition text_ok (f : Fields) : Prop :=
  match f with
  | AddOrder _ _ _ _ st _
  | Trade _ _ _ _ st _ _ => ascii_only (str_take 8 st)
  | AddOrderWithMpid _ _ _ _ st _ mp =>
      ascii_only (str_take 8 st) /\ ascii_only (str_take 4 mp)
  | _ => True
  end.

#[global] Instance text_ok_dec (f : Fields) : Decision (text_ok f).
Proof. destruct f; simpl; apply _. Defined.

(** What a generator makes of its side and text arguments: the side is
    ['S'] or, for any other string, ['B']; a text is cut or padded with
    spaces to its width. *)
Definition normalise (f : Fields) : Fields :=
  let sd s := if decide (s = "S"%string) then "S"%string else "B"%string in
  let tx w s := str_take w (ljust s w) in
  match f with
  | AddOrder t o s sh st p => AddOrder t o (sd s) sh (tx 8%nat st) p
  | Trade t o s sh st p m => Trade t o (sd s) sh (tx 8%nat st) p m
  | AddOrderWithMpid t o s sh st p mp =>
      AddOrderWithMpid t o (sd s) sh (tx 8%nat st) p (tx 4%nat mp)
  | _ => f
  end.

(** Every field of a message lies in the range of its wire width; the side
    is 0 or 1. *)
Definition in_wire_ranges (m : ParsedMessage.t) : Prop :=
  unsigned 64 (ParsedMessage.order_ref m)
  /\ (ParsedMessage.side m = 0 \/ ParsedMessage.side m = 1)
  /\ unsigned 32 (ParsedMessage.shares m)
  /\ unsigned 32 (ParsedMessage.price m)
  /\ unsigned 64 (ParsedMessage.new_order_ref m)
  /\ unsigned 48 (ParsedMessage.timestamp m)
  /\ unsigned 64 (ParsedMessage.misc_data m).

(** The attributes of a parser agree with each other: the counter is the
    length of the buffer, the buffer holds bytes, and either no frame is
    open (no kind, no target length, empty buffer) or the kind is the one
    [MSG_CHAR_TO_TYPE] gives for the first buffered byte, the target length
    is its [MSG_LENGTHS] entry and the buffer is not empty and shorter than
    that length. *)
Definition consistent (s : ITCHParser.t) : Prop :=
  ITCHParser._result s = ParsedMessage.default
  /\ Forall is_byte (ITCHParser.buffer s)
  /\ ITCHParser.byte_index s = Z.of_nat (length (ITCHParser.buffer s))
  /\ match ITCHParser.msg_type s with
     | None => ITCHParser.buffer s = [] /\ ITCHParser.msg_length s = 0
     | Some ty =>
         (tag ← head (ITCHParser.buffer s); MSG_CHAR_TO_TYPE !! tag) = Some ty
         /\ MSG_LENGTHS !! ty = Some (ITCHParser.msg_length s)
         /\ 0 < ITCHParser.byte_index s < ITCHParser.msg_length s
     end.

(** The offsets of a frame that the decoder reads, per kind. *)
Definition read_by (ty : MessageType) (i : nat) : Prop :=
  match ty with
  | DELETE_ORDER => 1 <= i < 9
  | ADD_ORDER | ADD_ORDER_MPID => 1 <= i < 32
  | CANCEL_ORDER => 1 <= i < 19
  | EXECUTED_ORDER | REPLACE_ORDER => 1 <= i < 27
  | TRADE => 1 <= i < 20 \/ 28 <= i < 40
  | EXECUTED_PRICE => 1 <= i < 27 \/ 28 <= i < 32
  | BROKEN_TRADE => 1 <= i < 15
  end%nat.

(** The name under which ITCH_config.py lists the frame length of a
    kind. *)
Definition config_name (ty : MessageType) : string :=
  match ty with
  | ADD_ORDER => "add"
  | CANCEL_ORDER => "cancel"
  | DELETE_ORDER => "delete"
  | EXECUTED_ORDER => "executed"
  | REPLACE_ORDER => "replace"
  | TRADE => "trade"
  | ADD_ORDER_MPID => "add_mpid"
  | EXECUTED_PRICE => "executed_price"
  | BROKEN_TRADE => "broken_trade"
  end.

(** * Properties *)

(** ** Big-endian integers *)

Section BigEndian.

Lemma be_digits_length (len : nat) (n : Z) : length (be_digits len n) = len.
Proof.
  revert n. induction len as [|len IH]; intros n; simpl; [reflexivity|].
  rewrite length_app, IH. simpl. lia.
Qed.

Lemma be_digits_bytes (len : nat) (n : Z) : Forall is_byte (be_digits len n).
Proof.
  revert n. induction len as [|len IH]; intros n; simpl; [constructor|].
  apply Forall_app. split; [apply IH|].
  constructor; [|constructor]. unfold is_byte. apply Z.mod_pos_bound. lia.
Qed.

Lemma from_bytes_snoc (bs : list Z) (b : Z) :
  from_bytes (bs ++ [b]) = from_bytes bs * 256 + b.
Proof. unfold from_bytes. rewrite foldl_app. reflexivity. Qed.

Lemma from_be_digits (len : nat) (n : Z) :
  0 <= n < 2 ^ (8 * Z.of_nat len) -> from_bytes (be_digits len n) = n.
Proof.
  revert n. induction len as [|len IH]; intros n Hn.
  - simpl in *. unfold from_bytes. simpl. lia.
  - simpl be_digits. rewrite from_bytes_snoc, IH.
    + pose proof (Z.div_mod n 256). lia.
    + replace (8 * Z.of_nat (S len)) with (8 + 8 * Z.of_nat len) in Hn by lia.
      rewrite Z.pow_add_r in Hn by lia.
      change (2 ^ 8) with 256 in Hn.
      split; [apply Z.div_pos; lia|].
      apply Z.div_lt_upper_bound; lia.
Qed.

Lemma to_bytes_ok (n : Z) (len : nat) :
  0 <= n < 2 ^ (8 * Z.of_nat len) -> to_bytes n len = Ok (be_digits len n).
Proof. intros Hn. unfold to_bytes. rewrite decide_True; auto. Qed.

Lemma to_bytes_raises (n : Z) (len : nat) :
  ~ 0 <= n < 2 ^ (8 * Z.of_nat len) -> to_bytes n len = Raise OverflowError.
Proof. intros Hn. unfold to_bytes. rewrite decide_False; auto. Qed.

End BigEndian.

(** ** Fixed-width text fields *)

Section Text.

Lemma ord_byte (c : ascii) : is_byte (ord c).
Proof.
  unfold is_byte, ord. pose proof (N_ascii_bounded c). lia.
Qed.

Lemma encode_ascii_ok (s : string) :
  ascii_only s -> encode_ascii s = Ok (code_points s).
Proof.
  unfold ascii_only, code_points.
  induction s as [|c s IH]; simpl; intros H; [reflexivity|].
  inversion H as [|? ? Hc Hs]; subst.
  rewrite decide_True by assumption. rewrite IH by assumption. reflexivity.
Qed.

Lemma code_points_bytes (s : string) : Forall is_byte (code_points s).
Proof.
  unfold code_points. apply Forall_fmap, Forall_true. intros c. apply ord_byte.
Qed.

Lemma list_ascii_append (s1 s2 : string) :
  list_ascii_of_string (String.append s1 s2)
  = list_ascii_of_string s1 ++ list_ascii_of_string s2.
Proof. induction s1 as [|c s1 IH]; simpl; [reflexivity|]. now rewrite IH. Qed.

Lemma list_ascii_take (n : nat) (s : string) :
  list_ascii_of_string (str_take n s) = take n (list_ascii_of_string s).
Proof.
  unfold str_take. revert s.
  induction n as [|n IH]; intros [|c s]; simpl; try reflexivity.
  now rewrite IH.
Qed.

Lemma list_ascii_length (s : string) :
  length (list_ascii_of_string s) = String.length s.
Proof. induction s as [|c s IH]; simpl; [reflexivity|]. now rewrite IH. Qed.

Lemma padded_length (s : string) (width : nat) :
  length (padded s width) = width.
Proof.
  unfold padded, code_points, ljust.
  rewrite length_fmap, list_ascii_take, list_ascii_append,
    list_ascii_of_string_of_list_ascii.
  rewrite length_take, length_app, length_replicate, list_ascii_length. lia.
Qed.

Lemma padded_ascii (s : string) (width : nat) :
  ascii_only s -> ascii_only (str_take width (ljust s width)).
Proof.
  unfold ascii_only, ljust. intros H.
  rewrite list_ascii_take, list_ascii_append,
    list_ascii_of_string_of_list_ascii.
  apply Forall_take, Forall_app. split; [assumption|].
  apply Forall_replicate. vm_compute. reflexivity.
Qed.

Lemma encode_padded (s : string) (width : nat) :
  ascii_only s ->
  encode_ascii (str_take width (ljust s width)) = Ok (padded s width).
Proof. intros H. apply encode_ascii_ok, padded_ascii, H. Qed.

End Text.

(** ** Type registry *)

Section Registry.

Lemma MSG_LENGTHS_lookup (ty : MessageType) :
  MSG_LENGTHS !! ty = Some (Z.of_nat (frame_length ty)).
Proof. destruct ty; vm_compute; reflexivity. Qed.

Lemma MSG_CHAR_TO_TYPE_tag (ty : MessageType) :
  MSG_CHAR_TO_TYPE !! tag_of ty = Some ty.
Proof. destruct ty; vm_compute; reflexivity. Qed.

Lemma MSG_CHAR_TO_TYPE_Some (b : Z) (ty : MessageType) :
  MSG_CHAR_TO_TYPE !! b = Some ty <-> b = tag_of ty.
Proof.
  split; [|intros ->; apply MSG_CHAR_TO_TYPE_tag].
  intros H. apply elem_of_list_to_map_2 in H.
  repeat (apply elem_of_cons in H as [H|H]; [injection H as -> ->; reflexivity|]).
  apply elem_of_nil in H. contradiction.
Qed.

Lemma MSG_CHAR_TO_TYPE_None (b : Z) :
  MSG_CHAR_TO_TYPE !! b = None <-> forall ty, b <> tag_of ty.
Proof.
  split.
  - intros H ty ->. rewrite MSG_CHAR_TO_TYPE_tag in H. discriminate.
  - intros H. destruct (MSG_CHAR_TO_TYPE !! b) as [ty|] eqn:E; [|reflexivity].
    apply MSG_CHAR_TO_TYPE_Some in E. destruct (H ty E).
Qed.

Lemma tag_of_byte (ty : MessageType) : is_byte (tag_of ty).
Proof. destruct ty; vm_compute; split; congruence. Qed.

Lemma tag_of_inj (t1 t2 : MessageType) : tag_of t1 = tag_of t2 -> t1 = t2.
Proof.
  intros H. pose proof (MSG_CHAR_TO_TYPE_tag t1) as H1.
  rewrite H, MSG_CHAR_TO_TYPE_tag in H1. congruence.
Qed.

Lemma frame_length_bounds (ty : MessageType) :
  (9 <= frame_length ty <= 40)%nat.
Proof. destruct ty; simpl; lia. Qed.

End Registry.

(** ** The frame assembler *)

Section Assembler.

Variable ty : MessageType.

Lemma reset_init (s : ITCHParser.t) : ITCHParser.reset s = ITCHParser.__init__.
Proof. reflexivity. Qed.

Lemma decode_valid (s : ITCHParser.t) (m : ParsedMessage.t) :
  ITCHParser._decode_message s = Ok m ->
  ParsedMessage.valid m = true
  /\ ParsedMessage.msg_type m = MessageType_value <$> ITCHParser.msg_type s.
Proof.
  unfold ITCHParser._decode_message.
  destruct (ITCHParser.msg_type s) as [[]|]; simpl;
    try (intros [= <-]; split; reflexivity);
    destruct (getitem (ITCHParser.buffer s) 15); simpl;
    try discriminate; intros [= <-]; split; reflexivity.
Qed.

Lemma decode_total (buf : list Z) :
  length buf = frame_length ty ->
  exists m, ITCHParser._decode_message (accumulating ty buf) = Ok m.
Proof.
  intros Hlen. unfold ITCHParser._decode_message, getitem. simpl.
  destruct ty; simpl in *; try (eexists; reflexivity);
    (destruct (buf !! 15%nat) eqn:E;
      [eexists; reflexivity
      |apply lookup_ge_None in E; lia]).
Qed.

Lemma feed_byte_reject (s : ITCHParser.t) (b : Z) :
  ITCHParser.byte_index s = 0 ->
  MSG_CHAR_TO_TYPE !! b = None ->
  ITCHParser.feed_byte s b = Ok (ParsedMessage.default, ITCHParser.__init__).
Proof.
  intros H0 Hb. unfold ITCHParser.feed_byte.
  rewrite decide_True by assumption. rewrite Hb. reflexivity.
Qed.

Lemma feed_byte_tag (s : ITCHParser.t) :
  ITCHParser.byte_index s = 0 ->
  ITCHParser.feed_byte s (tag_of ty)
  = Ok (ParsedMessage.default,
        {| ITCHParser.byte_index := 1;
           ITCHParser.msg_type := Some ty;
           ITCHParser.msg_length := Z.of_nat (frame_length ty);
           ITCHParser.buffer := [tag_of ty];
           ITCHParser._result := ITCHParser._result s |}).
Proof.
  intros H0. unfold ITCHParser.feed_byte.
  rewrite decide_True by assumption.
  rewrite MSG_CHAR_TO_TYPE_tag. unfold dict_get.
  rewrite MSG_LENGTHS_lookup. simpl. unfold bytearray.
  rewrite decide_True by (repeat constructor; apply tag_of_byte). simpl.
  unfold ITCHParser.feed_byte_count. simpl. rewrite H0.
  rewrite decide_False; [reflexivity|].
  pose proof (frame_length_bounds ty). lia.
Qed.

Lemma feed_byte_more (buf : list Z) (b : Z) :
  buf <> [] -> is_byte b ->
  (length buf + 1 < frame_length ty)%nat ->
  ITCHParser.feed_byte (accumulating ty buf) b
  = Ok (ParsedMessage.default, accumulating ty (buf ++ [b])).
Proof.
  intros Hne Hb Hlen. unfold ITCHParser.feed_byte. simpl.
  rewrite decide_False by (destruct buf; [congruence|simpl; lia]).
  unfold bytearray_append. rewrite decide_True by assumption. simpl.
  unfold ITCHParser.feed_byte_count. simpl.
  rewrite decide_False by lia.
  unfold accumulating. rewrite length_app. simpl.
  do 3 f_equal. lia.
Qed.

Lemma feed_byte_last (buf : list Z) (b : Z) :
  buf <> [] -> is_byte b ->
  (length buf + 1 = frame_length ty)%nat ->
  ITCHParser.feed_byte (accumulating ty buf) b
  = (m ← ITCHParser._decode_message (accumulating ty (buf ++ [b]));
     Ok (m, ITCHParser.__init__)).
Proof.
  intros Hne Hb Hlen. unfold ITCHParser.feed_byte. simpl.
  rewrite decide_False by (destruct buf; [congruence|simpl; lia]).
  unfold bytearray_append. rewrite decide_True by assumption. simpl.
  unfold ITCHParser.feed_byte_count. simpl.
  rewrite decide_True by lia.
  reflexivity.
Qed.

End Assembler.

Section Streams.

Variable ty : MessageType.

Lemma is_frame_iff (frame : list Z) :
  is_frame ty frame
  <-> head frame = Some (tag_of ty)
      /\ length frame = frame_length ty
      /\ Forall is_byte frame.
Proof.
  unfold is_frame. rewrite MSG_LENGTHS_lookup.
  destruct frame as [|b frame]; simpl.
  - split; intros (H & _); discriminate H.
  - rewrite MSG_CHAR_TO_TYPE_Some. split; intros (H1 & H2 & H3).
    + subst b. injection H2 as H2. apply Nat2Z.inj in H2. auto.
    + injection H1 as ->. rewrite <- H2. auto.
Qed.

Lemma feed_all_app (s : ITCHParser.t) (d1 d2 : list Z) rs1 s1 :
  feed_all s d1 = Ok (rs1, s1) ->
  feed_all s (d1 ++ d2) = (rs ← feed_all s1 d2; Ok (rs1 ++ rs.1, rs.2)).
Proof.
  revert s rs1 s1. induction d1 as [|b d1 IH]; intros s rs1 s1; simpl.
  - intros [= <- <-]. destruct (feed_all s d2) as [[rs s2]|e]; reflexivity.
  - destruct (ITCHParser.feed_byte s b) as [[m s']|e]; simpl; [|discriminate].
    destruct (feed_all s' d1) as [[rs s'']|e] eqn:E; simpl; [|discriminate].
    intros [= <- <-]. rewrite (IH _ _ _ E).
    destruct (feed_all s'' d2) as [[rs2 s2]|e]; reflexivity.
Qed.

Lemma feed_all_more (rest buf : list Z) :
  buf <> [] -> Forall is_byte rest ->
  (length buf + length rest < frame_length ty)%nat ->
  feed_all (accumulating ty buf) rest
  = Ok (replicate (length rest) ParsedMessage.default,
        accumulating ty (buf ++ rest)).
Proof.
  revert buf. induction rest as [|b rest IH]; intros buf Hne Hb Hlen.
  - simpl. rewrite app_nil_r. reflexivity.
  - inversion Hb as [|? ? Hb1 Hb2]; subst. simpl in Hlen. simpl.
    rewrite feed_byte_more by (auto; lia). simpl.
    rewrite IH; [|destruct buf; discriminate|assumption|rewrite length_app; simpl; lia].
    simpl. rewrite <- app_assoc. reflexivity.
Qed.

Lemma parse_loop_more (rest buf tail : list Z) :
  buf <> [] -> Forall is_byte rest ->
  (length buf + length rest < frame_length ty)%nat ->
  ITCHParser.parse_loop (accumulating ty buf) (rest ++ tail)
  = ITCHParser.parse_loop (accumulating ty (buf ++ rest)) tail.
Proof.
  revert buf. induction rest as [|b rest IH]; intros buf Hne Hb Hlen.
  - simpl. rewrite app_nil_r. reflexivity.
  - inversion Hb as [|? ? Hb1 Hb2]; subst. simpl in Hlen. simpl.
    rewrite feed_byte_more by (auto; lia). simpl.
    rewrite IH; [|destruct buf; discriminate|assumption|rewrite length_app; simpl; lia].
    rewrite <- app_assoc. reflexivity.
Qed.

(** A frame splits into its tag, its middle bytes and its last byte. *)
Lemma is_frame_split (frame : list Z) :
  is_frame ty frame ->
  exists mid last,
    frame = tag_of ty :: mid ++ [last]
    /\ Forall is_byte mid /\ is_byte last
    /\ (length mid + 2 = frame_length ty)%nat.
Proof.
  intros (Hhd & Hlen & Hb)%is_frame_iff.
  pose proof (frame_length_bounds ty) as Hty.
  destruct frame as [|t rest]; simpl in *; [discriminate|].
  injection Hhd as ->.
  destruct rest as [|x mid _] using rev_ind; [simpl in Hlen; lia|].
  exists mid, x. inversion Hb as [|? ? _ Hrest]; subst.
  apply Forall_app in Hrest as [Hmid Hx]. inversion Hx; subst.
  rewrite length_app in Hlen. simpl in Hlen.
  split; [reflexivity|]. split; [assumption|]. split; [assumption|]. lia.
Qed.

Lemma feed_all_frame (frame : list Z) :
  is_frame ty frame ->
  feed_all ITCHParser.__init__ frame
  = (m ← ITCHParser._decode_message (accumulating ty frame);
     Ok (replicate (frame_length ty - 1) ParsedMessage.default ++ [m],
         ITCHParser.__init__)).
Proof.
  intros Hf. destruct (is_frame_split _ Hf) as (mid & last & -> & Hmid & Hlast & Hlen).
  change (tag_of ty :: mid ++ [last]) with ([tag_of ty] ++ mid ++ [last]) at 1.
  erewrite feed_all_app; cycle 1.
  { simpl. rewrite feed_byte_tag by reflexivity. simpl. reflexivity. }
  erewrite feed_all_app; cycle 1.
  { apply (feed_all_more mid [tag_of ty]); [discriminate|assumption|simpl; lia]. }
  simpl. rewrite feed_byte_last; [|discriminate|assumption|simpl; rewrite ?length_app; simpl; lia].
  simpl.
  destruct (ITCHParser._decode_message _) as [m|e]; simpl; [|reflexivity].
  replace (frame_length ty - 1)%nat with (S (length mid)) by lia.
  reflexivity.
Qed.

Lemma parse_message_frame (p : ITCHParser.t) (frame tail : list Z) :
  is_frame ty frame ->
  ITCHParser.parse_message p (frame ++ tail)
  = (m ← ITCHParser._decode_message (accumulating ty frame);
     Ok (m, ITCHParser.__init__)).
Proof.
  intros Hf. destruct (is_frame_split _ Hf) as (mid & last & -> & Hmid & Hlast & Hlen).
  unfold ITCHParser.parse_message. simpl.
  rewrite feed_byte_tag by reflexivity. simpl.
  rewrite <- app_assoc.
  rewrite (parse_loop_more mid [tag_of ty]); [|discriminate|assumption|simpl; lia].
  simpl. rewrite feed_byte_last; [|discriminate|assumption|simpl; rewrite ?length_app; simpl; lia].
  simpl.
  destruct (ITCHParser._decode_message _) as [m|e] eqn:E; simpl; [|reflexivity].
  apply decode_valid in E as [-> _]. reflexivity.
Qed.

Lemma parse_message_frame_exact (p : ITCHParser.t) (frame : list Z) :
  is_frame ty frame ->
  ITCHParser.parse_message p frame
  = (m ← ITCHParser._decode_message (accumulating ty frame);
     Ok (m, ITCHParser.__init__)).
Proof.
  intros Hf. rewrite <- (app_nil_r frame) at 1.
  apply parse_message_frame, Hf.
Qed.

End Streams.

(** ** Encoder and decoder *)

(** Every element of a list built from the encoder's pieces is a byte. *)
Ltac bytes_tac :=
  repeat match goal with
    | |- Forall _ (be_digits _ _) => apply be_digits_bytes
    | |- Forall _ (padded _ _) => apply code_points_bytes
    | |- Forall _ (zeros _) => apply Forall_replicate; unfold is_byte; lia
    | |- Forall _ (_ ++ _) => apply Forall_app_2
    | |- Forall _ (_ :: _) => apply Forall_cons_2
    | |- Forall _ [] => apply Forall_nil_2
    | |- is_byte (ord _) => apply ord_byte
    | |- is_byte (side_byte _) => unfold side_byte
    | |- is_byte (if ?b then _ else _) => destruct b
    end.

(** A text field of known width is a list of that many bytes. *)
Ltac explode_padded s w :=
  let l := fresh "l" in
  let L := fresh "L" in
  let E := fresh "E" in
  pose proof (padded_length s w) as L;
  remember (padded s w) as l eqn:E; clear E;
  repeat (destruct l as [|? l]; simpl in L; [discriminate L|]);
  destruct l; [clear L|discriminate L].

Section Codec.

Lemma encode_ok (f : Fields) : wire_ok f -> encode f = Ok (layout f).
Proof.
  destruct f; unfold wire_ok, unsigned; intros H;
    repeat match goal with H : _ /\ _ |- _ => destruct H end;
    unfold encode, layout, gen_delete_order, gen_add_order, gen_cancel_order,
      gen_executed_order, gen_replace_order, gen_trade, gen_add_order_mpid,
      gen_executed_price, gen_broken_trade;
    rewrite ?encode_padded by assumption;
    rewrite ?to_bytes_ok by (split; assumption);
    reflexivity.
Qed.

Lemma layout_is_frame (f : Fields) : is_frame (kind_of f) (layout f).
Proof.
  apply is_frame_iff.
  destruct f; (split; [reflexivity|split]); unfold layout.
  all: try (rewrite ?length_app, ?length_cons, ?be_digits_length,
              ?padded_length; reflexivity).
  all: bytes_tac.
Qed.

Lemma unsigned_48 (n : Z) : unsigned 48 n -> from_bytes (be_digits 6 n) = n.
Proof. apply (from_be_digits 6). Qed.

Lemma unsigned_64 (n : Z) : unsigned 64 n -> from_bytes (be_digits 8 n) = n.
Proof. apply (from_be_digits 8). Qed.

Lemma unsigned_32 (n : Z) : unsigned 32 n -> from_bytes (be_digits 4 n) = n.
Proof. apply (from_be_digits 4). Qed.

(** The decoder reads back, at its fixed offsets, what the generator
    laid out. *)
Lemma decode_layout (f : Fields) :
  wire_ok f ->
  ITCHParser._decode_message (accumulating (kind_of f) (layout f))
  = Ok (expected f).
Proof.
  destruct f; simpl wire_ok; intros H;
    repeat match goal with H : _ /\ _ |- _ => destruct H end;
    unfold layout, expected, kind_of;
    repeat match goal with
      | |- context [padded ?s ?w] => explode_padded s w
      end;
    repeat match goal with
      | |- context [be_digits ?len ?n] => set (be_digits len n)
      end;
    repeat match goal with
      | H : unsigned 48 ?n |- _ => rewrite <- (unsigned_48 n H); clear H
      | H : unsigned 64 ?n |- _ => rewrite <- (unsigned_64 n H); clear H
      | H : unsigned 32 ?n |- _ => rewrite <- (unsigned_32 n H); clear H
      end;
    unfold side_code, side_byte;
    try match goal with
      | |- context [decide (?sd = "S"%string)] =>
          destruct (decide (sd = "S"%string))
      end;
    reflexivity.
Qed.

End Codec.

(** ** Round trip (C1) *)

(** C1.  For each of the 9 kinds and all field values that fit their wire
    widths (timestamp below 2^48, references and match id below 2^64,
    shares and price below 2^32, side ['B'] or ['S'], ASCII text), the
    generator of the kind returns a frame, and [parse_message] on that frame
    returns the valid message of that kind whose defined fields are the
    encoded values (side ['S'] as 1 = Sell and ['B'] as 0 = Buy, [misc_data]
    the big-endian integer of the padded stock bytes or the match id) and
    whose other fields are 0. *)
Theorem decode_encode_roundtrip (f : Fields) (p : ITCHParser.t) :
  wire_ok f -> side_ok f ->
  exists frame,
    encode f = Ok frame
    /\ ITCHParser.parse_message p frame
       = Ok (expected f, ITCHParser.__init__).
Proof.
  intros Hw _. exists (layout f). split; [apply encode_ok, Hw|].
  rewrite (parse_message_frame_exact (kind_of f) p) by apply layout_is_frame.
  rewrite decode_layout by assumption. reflexivity.
Qed.

Lemma decode_encode_roundtrip_witness :
  wire_ok test_add_order /\ side_ok test_add_order
  /\ exists frame,
       encode test_add_order = Ok frame
       /\ ITCHParser.parse_message ITCHParser.__init__ frame
          = Ok (expected test_add_order, ITCHParser.__init__).
Proof.
  assert (Hw : wire_ok test_add_order)
    by (apply (bool_decide_unpack _); vm_compute; exact I).
  assert (Hs : side_ok test_add_order) by (left; reflexivity).
  split; [exact Hw|]. split; [exact Hs|].
  exact (decode_encode_roundtrip test_add_order ITCHParser.__init__ Hw Hs).
Defined.

(** The two sides of the claim's reading of [side]. *)
Lemma side_code_values : side_code "S" = 1 /\ side_code "B" = 0.
Proof. split; reflexivity. Qed.

(** ** Encoder length (C5) *)

(** C5.  For each of the 9 kinds and all in-range field values, the
    generator of the kind returns a byte sequence whose length is the length
    [MSG_LENGTHS] declares for the kind: AddOrder 36, CancelOrder 23,
    DeleteOrder 9, ExecutedOrder 30, ReplaceOrder 27, Trade 40,
    AddOrderWithMpid 40, ExecutedWithPrice 36, BrokenTrade 19. *)
Theorem encode_length_is_registry_length (f : Fields) :
  wire_ok f ->
  exists frame,
    encode f = Ok frame
    /\ MSG_LENGTHS !! kind_of f = Some (Z.of_nat (length frame))
    /\ length frame
       = match kind_of f with
         | ADD_ORDER => 36 | CANCEL_ORDER => 23 | DELETE_ORDER => 9
         | EXECUTED_ORDER => 30 | REPLACE_ORDER => 27 | TRADE => 40
         | ADD_ORDER_MPID => 40 | EXECUTED_PRICE => 36 | BROKEN_TRADE => 19
         end%nat.
Proof.
  intros Hw. exists (layout f). split; [apply encode_ok, Hw|].
  destruct (layout_is_frame f) as (_ & Hlen & _).
  split; [exact Hlen|].
  rewrite MSG_LENGTHS_lookup in Hlen. injection Hlen as Hlen.
  apply Nat2Z.inj in Hlen. rewrite <- Hlen. destruct f; reflexivity.
Qed.

Lemma encode_length_is_registry_length_witness :
  wire_ok test_trade
  /\ exists frame,
       encode test_trade = Ok frame
       /\ MSG_LENGTHS !! TRADE = Some (Z.of_nat (length frame))
       /\ length frame = 40%nat.
Proof.
  assert (Hw : wire_ok test_trade)
    by (apply (bool_decide_unpack _); vm_compute; exact I).
  split; [exact Hw|].
  exact (encode_length_is_registry_length test_trade Hw).
Defined.

(** ** Concrete scenarios (C7) *)

(** C7.  (1) [gen_delete_order(0x0102030405060708)] is the 9 bytes
    44 01 02 03 04 05 06 07 08, and [parse_message] on them returns a valid
    DeleteOrder with that [order_ref].  (2) The frame of
    [gen_broken_trade(0xCAFE, 0x0123456789ABCDEF)] has 19 bytes and decodes
    to a valid BrokenTrade with that [misc_data], [timestamp] 0xCAFE and
    [order_ref] 0. *)
Theorem concrete_scenarios (p : ITCHParser.t) :
  gen_delete_order 0x0102030405060708
  = Ok [0x44; 0x01; 0x02; 0x03; 0x04; 0x05; 0x06; 0x07; 0x08]
  /\ (exists m s,
        ITCHParser.parse_message p
          [0x44; 0x01; 0x02; 0x03; 0x04; 0x05; 0x06; 0x07; 0x08]
        = Ok (m, s)
        /\ ParsedMessage.valid m = true
        /\ ParsedMessage.msg_type m = Some (MessageType_value DELETE_ORDER)
        /\ ParsedMessage.order_ref m = 0x0102030405060708)
  /\ (exists frame m s,
        gen_broken_trade 0x00000000CAFE 0x0123456789ABCDEF = Ok frame
        /\ length frame = 19%nat
        /\ ITCHParser.parse_message p frame = Ok (m, s)
        /\ ParsedMessage.valid m = true
        /\ ParsedMessage.msg_type m = Some (MessageType_value BROKEN_TRADE)
        /\ ParsedMessage.misc_data m = 0x0123456789ABCDEF
        /\ ParsedMessage.timestamp m = 0x00000000CAFE
        /\ ParsedMessage.order_ref m = 0).
Proof.
  split; [vm_compute; reflexivity|]. split.
  - eexists _, _. split; [vm_compute; reflexivity|].
    repeat split; reflexivity.
  - eexists _, _, _. split; [vm_compute; reflexivity|].
    split; [reflexivity|]. split; [vm_compute; reflexivity|].
    repeat split; reflexivity.
Qed.

(** ** Type registry (C2) *)

(** Two distinct kinds with one frame length: the frame length is not
    unique per kind, so the claim C2 fails as stated. *)
Lemma frame_lengths_collide :
  TRADE <> ADD_ORDER_MPID
  /\ MSG_LENGTHS !! TRADE = Some 40
  /\ MSG_LENGTHS !! ADD_ORDER_MPID = Some 40
  /\ ~ (forall t1 t2 : MessageType,
          t1 <> t2 -> MSG_LENGTHS !! t1 <> MSG_LENGTHS !! t2).
Proof.
  split; [discriminate|]. split; [reflexivity|]. split; [reflexivity|].
  intros H. apply (H TRADE ADD_ORDER_MPID); [discriminate|reflexivity].
Qed.

(** C2, amended.  The tag is unique per kind: every kind has exactly one
    tag byte and distinct kinds have distinct tag bytes.  The lookup accepts
    the 9 tag bytes and no other byte.  Every kind has a frame length, and
    two distinct kinds have the same frame length exactly when they are
    AddOrder and ExecutedWithPrice (36) or Trade and AddOrderWithMpid
    (40). *)
Theorem registry_tags_unique_lengths_shared :
  (forall ty : MessageType,
     exists b, MSG_CHAR_TO_TYPE !! b = Some ty
               /\ forall b', MSG_CHAR_TO_TYPE !! b' = Some ty -> b' = b)
  /\ (forall (b1 b2 : Z) (t1 t2 : MessageType),
        MSG_CHAR_TO_TYPE !! b1 = Some t1 ->
        MSG_CHAR_TO_TYPE !! b2 = Some t2 ->
        t1 <> t2 -> b1 <> b2)
  /\ (forall b : Z, is_Some (MSG_CHAR_TO_TYPE !! b) <-> b ∈ tag_bytes)
  /\ (forall ty : MessageType, is_Some (MSG_LENGTHS !! ty))
  /\ (forall t1 t2 : MessageType,
        t1 <> t2 ->
        (MSG_LENGTHS !! t1 = MSG_LENGTHS !! t2
         <-> (t1 = ADD_ORDER /\ t2 = EXECUTED_PRICE)
             \/ (t1 = EXECUTED_PRICE /\ t2 = ADD_ORDER)
             \/ (t1 = TRADE /\ t2 = ADD_ORDER_MPID)
             \/ (t1 = ADD_ORDER_MPID /\ t2 = TRADE))).
Proof.
  split; [|split; [|split; [|split]]].
  - intros ty. exists (tag_of ty). split; [apply MSG_CHAR_TO_TYPE_tag|].
    intros b' H. apply MSG_CHAR_TO_TYPE_Some, H.
  - intros b1 b2 t1 t2 H1 H2 Hne ->. congruence.
  - intros b. split.
    + intros [ty H]. apply MSG_CHAR_TO_TYPE_Some in H as ->.
      destruct ty; vm_compute; set_solver.
    + intros H. unfold tag_bytes in H.
      repeat (apply elem_of_cons in H as [->|H]; [eexists; vm_compute; reflexivity|]).
      apply elem_of_nil in H. contradiction.
  - intros ty. rewrite MSG_LENGTHS_lookup. eexists. reflexivity.
  - intros t1 t2 Hne. rewrite !MSG_LENGTHS_lookup. split.
    + intros [= H]. apply Nat2Z.inj in H.
      destruct t1, t2; simpl in H; try discriminate H; try congruence; tauto.
    + intros [[-> ->]|[[-> ->]|[[-> ->]|[-> ->]]]]; reflexivity.
Qed.

(** The table of ITCH_config.py declares the same lengths, under its own
    names, and shares the two collisions. *)
Lemma ITCH_config_lengths_agree :
  ITCH_config.MSG_LENGTHS !! "add"%string = MSG_LENGTHS !! ADD_ORDER
  /\ ITCH_config.MSG_LENGTHS !! "cancel"%string = MSG_LENGTHS !! CANCEL_ORDER
  /\ ITCH_config.MSG_LENGTHS !! "replace"%string = MSG_LENGTHS !! REPLACE_ORDER
  /\ ITCH_config.MSG_LENGTHS !! "delete"%string = MSG_LENGTHS !! DELETE_ORDER
  /\ ITCH_config.MSG_LENGTHS !! "executed"%string = MSG_LENGTHS !! EXECUTED_ORDER
  /\ ITCH_config.MSG_LENGTHS !! "trade"%string = MSG_LENGTHS !! TRADE
  /\ ITCH_config.MSG_LENGTHS !! "add_mpid"%string = MSG_LENGTHS !! ADD_ORDER_MPID
  /\ ITCH_config.MSG_LENGTHS !! "broken_trade"%string = MSG_LENGTHS !! BROKEN_TRADE
  /\ ITCH_config.MSG_LENGTHS !! "executed_price"%string
     = MSG_LENGTHS !! EXECUTED_PRICE.
Proof. vm_compute. repeat split; reflexivity. Qed.

(** ** Streaming against bulk parsing (C3, C8) *)

Section Refinement.

Lemma init_tag_state (ty : MessageType) :
  {| ITCHParser.byte_index := 1;
     ITCHParser.msg_type := Some ty;
     ITCHParser.msg_length := Z.of_nat (frame_length ty);
     ITCHParser.buffer := [tag_of ty];
     ITCHParser._result := ITCHParser._result ITCHParser.__init__ |}
  = accumulating ty [tag_of ty].
Proof. reflexivity. Qed.

(** On a byte, a reachable parser does not raise, and it stays reachable. *)
Lemma feed_byte_reachable (s : ITCHParser.t) (b : Z) :
  reachable s -> is_byte b ->
  exists m s', ITCHParser.feed_byte s b = Ok (m, s') /\ reachable s'.
Proof.
  intros [->|(ty & buf & -> & Hlen)] Hb.
  - destruct (MSG_CHAR_TO_TYPE !! b) as [ty|] eqn:E.
    + apply MSG_CHAR_TO_TYPE_Some in E as ->.
      rewrite feed_byte_tag by reflexivity. rewrite init_tag_state.
      eexists _, _. split; [reflexivity|]. right. exists ty, [tag_of ty].
      split; [reflexivity|]. pose proof (frame_length_bounds ty). simpl. lia.
    + rewrite feed_byte_reject by auto.
      eexists _, _. split; [reflexivity|]. left. reflexivity.
  - assert (Hne : buf <> []) by (destruct buf; [simpl in Hlen; lia|discriminate]).
    destruct (decide (length buf + 1 < frame_length ty)%nat) as [Hlt|Hge].
    + rewrite feed_byte_more by assumption.
      eexists _, _. split; [reflexivity|]. right. exists ty, (buf ++ [b]).
      split; [reflexivity|]. rewrite length_app. simpl. lia.
    + rewrite feed_byte_last by (auto; lia).
      destruct (decode_total ty (buf ++ [b])) as [m Hm];
        [rewrite length_app; simpl; lia|].
      rewrite Hm. eexists _, _. split; [reflexivity|]. left. reflexivity.
Qed.

Lemma init_reachable : reachable ITCHParser.__init__.
Proof. left. reflexivity. Qed.

(** The loop of [parse_message] returns the first valid result of the
    stream, or the invalid default when the stream has none. *)
Lemma parse_loop_first_valid (data : list Z) (s : ITCHParser.t) :
  reachable s -> Forall is_byte data ->
  exists rs s' m q,
    feed_all s data = Ok (rs, s')
    /\ ITCHParser.parse_loop s data = Ok (m, q)
    /\ m = default ParsedMessage.default (first_valid rs).
Proof.
  revert s. induction data as [|b data IH]; intros s Hs Hb.
  - exists [], s, ParsedMessage.default, s. repeat split; reflexivity.
  - inversion Hb as [|? ? Hb1 Hb2]; subst.
    destruct (feed_byte_reachable s b Hs Hb1) as (m1 & s1 & E1 & Hs1).
    destruct (IH s1 Hs1 Hb2) as (rs & s' & m & q & Ef & Ep & Hm).
    simpl. rewrite E1. simpl. rewrite Ef. simpl.
    destruct (ParsedMessage.valid m1) eqn:Ev.
    + exists (m1 :: rs), s', m1, s1. simpl. rewrite Ev. repeat split; reflexivity.
    + exists (m1 :: rs), s', m, q. simpl. rewrite Ev. repeat split; assumption.
Qed.

(** A valid result of the loop comes from a prefix of the data; what follows
    the prefix is not read. *)
Lemma parse_loop_valid_prefix (data : list Z) (s : ITCHParser.t) m q :
  ITCHParser.parse_loop s data = Ok (m, q) ->
  ParsedMessage.valid m = true ->
  exists pre post rs,
    data = pre ++ post
    /\ feed_all s pre = Ok (rs ++ [m], q)
    /\ Forall (fun r => ParsedMessage.valid r = false) rs
    /\ forall post', ITCHParser.parse_loop s (pre ++ post') = Ok (m, q).
Proof.
  revert s. induction data as [|b data IH]; intros s; simpl.
  - intros [= <- <-]. discriminate.
  - destruct (ITCHParser.feed_byte s b) as [[m1 s1]|e] eqn:E1; simpl;
      [|discriminate].
    destruct (ParsedMessage.valid m1) eqn:Ev.
    + intros [= <- <-] _. exists [b], data, []. simpl. rewrite E1. simpl.
      rewrite Ev. repeat split; auto.
    + intros Hp Hv. destruct (IH s1 Hp Hv) as (pre & post & rs & -> & Ef & Hrs & Hpost).
      exists (b :: pre), post, (m1 :: rs). simpl. rewrite E1. simpl.
      rewrite Ef, Ev. simpl. repeat split; auto.
Qed.

(** An invalid result of the loop is the default, returned after the whole
    data was fed and gave no valid result. *)
Lemma parse_loop_invalid_exhausted (data : list Z) (s : ITCHParser.t) m q :
  ITCHParser.parse_loop s data = Ok (m, q) ->
  ParsedMessage.valid m = false ->
  m = ParsedMessage.default
  /\ exists rs,
       feed_all s data = Ok (rs, q)
       /\ Forall (fun r => ParsedMessage.valid r = false) rs.
Proof.
  revert s. induction data as [|b data IH]; intros s; simpl.
  - intros [= <- <-] _. split; [reflexivity|]. exists []. split; auto.
  - destruct (ITCHParser.feed_byte s b) as [[m1 s1]|e] eqn:E1; simpl;
      [|discriminate].
    destruct (ParsedMessage.valid m1) eqn:Ev.
    + intros [= <- <-] Hv. congruence.
    + intros Hp Hv. destruct (IH s1 Hp Hv) as (-> & rs & Ef & Hrs).
      split; [reflexivity|]. exists (m1 :: rs). rewrite Ef. simpl.
      split; auto.
Qed.

End Refinement.

(** C3.  For every byte sequence [data], feeding its bytes one at a time to
    a freshly reset parser does not raise, and the first result with
    [valid=True] is the message [parse_message(data)] returns; when no
    result is valid, [parse_message(data)] returns the invalid default. *)
Theorem feed_byte_stream_agrees_with_parse_message
    (p p0 : ITCHParser.t) (data : list Z) :
  Forall is_byte data ->
  exists rs s m q,
    feed_all (ITCHParser.reset p0) data = Ok (rs, s)
    /\ ITCHParser.parse_message p data = Ok (m, q)
    /\ match first_valid rs with
       | Some m' => m = m' /\ ParsedMessage.valid m = true
       | None => m = ParsedMessage.default /\ ParsedMessage.valid m = false
       end.
Proof.
  intros Hb.
  destruct (parse_loop_first_valid data ITCHParser.__init__ init_reachable Hb)
    as (rs & s & m & q & Ef & Ep & Hm).
  exists rs, s, m, q. split; [exact Ef|]. split; [exact Ep|].
  subst m. clear. induction rs as [|r rs IH]; simpl; [split; reflexivity|].
  destruct (ParsedMessage.valid r) eqn:Ev; simpl; [split; auto|exact IH].
Qed.

Lemma feed_byte_stream_agrees_with_parse_message_witness :
  Forall is_byte test_delete_frame
  /\ exists rs s m q,
       feed_all (ITCHParser.reset ITCHParser.__init__) test_delete_frame
       = Ok (rs, s)
       /\ ITCHParser.parse_message ITCHParser.__init__ test_delete_frame
          = Ok (m, q)
       /\ match first_valid rs with
          | Some m' => m = m' /\ ParsedMessage.valid m = true
          | None => m = ParsedMessage.default /\ ParsedMessage.valid m = false
          end.
Proof.
  assert (Hb : Forall is_byte test_delete_frame)
    by (apply (bool_decide_unpack _); vm_compute; exact I).
  split; [exact Hb|].
  exact (feed_byte_stream_agrees_with_parse_message
           ITCHParser.__init__ ITCHParser.__init__ test_delete_frame Hb).
Defined.

(** C8.  [parse_message] starts from the reset state whatever the parser
    held before, so its outcome does not depend on that state; on bytes it
    does not raise.  Either it returns the valid result of the first frame
    that completes, which the stream gives on the last byte of a prefix of
    the data after invalid results only, and whatever follows that prefix is
    not read; or no result of the stream is valid (empty data included) and
    it returns the invalid default. *)
Theorem parse_message_resets_and_stops_at_first_frame
    (p p' : ITCHParser.t) (data : list Z) :
  Forall is_byte data ->
  ITCHParser.parse_message p data = ITCHParser.parse_message p' data
  /\ ITCHParser.parse_message p [] = Ok (ParsedMessage.default, ITCHParser.__init__)
  /\ exists m q,
       ITCHParser.parse_message p data = Ok (m, q)
       /\ ((ParsedMessage.valid m = true
            /\ exists pre post rs,
                 data = pre ++ post
                 /\ feed_all ITCHParser.__init__ pre = Ok (rs ++ [m], q)
                 /\ Forall (fun r => ParsedMessage.valid r = false) rs
                 /\ forall post' : list Z,
                      ITCHParser.parse_message p (pre ++ post') = Ok (m, q))
           \/ (m = ParsedMessage.default
               /\ ParsedMessage.valid m = false
               /\ exists rs,
                    feed_all ITCHParser.__init__ data = Ok (rs, q)
                    /\ Forall (fun r => ParsedMessage.valid r = false) rs)).
Proof.
  intros Hb. split; [reflexivity|]. split; [reflexivity|].
  destruct (parse_loop_first_valid data ITCHParser.__init__ init_reachable Hb)
    as (_ & _ & m & q & _ & Ep & _).
  exists m, q. split; [exact Ep|].
  destruct (ParsedMessage.valid m) eqn:Ev.
  - left. split; [reflexivity|]. exact (parse_loop_valid_prefix _ _ _ _ Ep Ev).
  - right. destruct (parse_loop_invalid_exhausted _ _ _ _ Ep Ev) as (-> & H).
    split; [reflexivity|]. split; [reflexivity|]. exact H.
Qed.

Lemma parse_message_resets_and_stops_at_first_frame_witness :
  Forall is_byte (test_delete_frame ++ [0x41; 0x00])
  /\ ITCHParser.parse_message (accumulating ADD_ORDER [0x41; 0x07])
       (test_delete_frame ++ [0x41; 0x00])
     = ITCHParser.parse_message ITCHParser.__init__
         (test_delete_frame ++ [0x41; 0x00]).
Proof.
  assert (Hb : Forall is_byte (test_delete_frame ++ [0x41; 0x00]))
    by (apply (bool_decide_unpack _); vm_compute; exact I).
  split; [exact Hb|].
  exact (proj1 (parse_message_resets_and_stops_at_first_frame
                  (accumulating ADD_ORDER [0x41; 0x07]) ITCHParser.__init__
                  (test_delete_frame ++ [0x41; 0x00]) Hb)).
Defined.

(** ** Unrecognized tags (C4) *)

Lemma not_tag_lookup (b : Z) : b ∉ tag_bytes -> MSG_CHAR_TO_TYPE !! b = None.
Proof.
  intros Hb. destruct (MSG_CHAR_TO_TYPE !! b) as [ty|] eqn:E; [|reflexivity].
  exfalso. apply Hb. apply MSG_CHAR_TO_TYPE_Some in E as ->.
  destruct ty; vm_compute; set_solver.
Qed.

(** C4.  On a parser that has consumed no byte since its last reset, a byte
    [b] that is none of the 9 tags is consumed alone: [feed_byte] does not
    raise, returns the invalid default and leaves the parser in its initial
    state.  For every complete frame that follows, feeding goes on to give
    invalid results up to the last byte of the frame and exactly there the
    one valid message, which is the decoding of that frame alone: the same
    results, and the same final state, as a fresh parser gives on the frame
    without [b] before it, and the message [parse_message] gives on the
    frame. *)
Theorem unknown_tag_rejected_then_frame_decoded
    (s : ITCHParser.t) (b : Z) (ty : MessageType) (frame : list Z) :
  ITCHParser.byte_index s = 0 ->
  b ∉ tag_bytes ->
  is_frame ty frame ->
  ITCHParser.feed_byte s b = Ok (ParsedMessage.default, ITCHParser.__init__)
  /\ ParsedMessage.valid ParsedMessage.default = false
  /\ exists m,
       ITCHParser._decode_message (accumulating ty frame) = Ok m
       /\ ParsedMessage.valid m = true
       /\ ParsedMessage.msg_type m = Some (MessageType_value ty)
       /\ feed_all s (b :: frame)
          = Ok (ParsedMessage.default
                  :: replicate (length frame - 1) ParsedMessage.default ++ [m],
                ITCHParser.__init__)
       /\ feed_all ITCHParser.__init__ frame
          = Ok (replicate (length frame - 1) ParsedMessage.default ++ [m],
                ITCHParser.__init__)
       /\ forall p, ITCHParser.parse_message p frame
                    = Ok (m, ITCHParser.__init__).
Proof.
  intros H0 Hb Hf.
  pose proof (feed_byte_reject s b H0 (not_tag_lookup b Hb)) as Hrej.
  split; [exact Hrej|]. split; [reflexivity|].
  pose proof Hf as (_ & Hlen & _)%is_frame_iff.
  destruct (decode_total ty frame Hlen) as [m Hm].
  destruct (decode_valid _ _ Hm) as [Hv Hty].
  exists m. split; [exact Hm|]. split; [exact Hv|]. split; [exact Hty|].
  assert (Hall : feed_all ITCHParser.__init__ frame
                 = Ok (replicate (length frame - 1) ParsedMessage.default ++ [m],
                       ITCHParser.__init__)).
  { rewrite (feed_all_frame ty) by exact Hf. rewrite Hm, Hlen. reflexivity. }
  split; [|split].
  - simpl. rewrite Hrej. simpl. rewrite Hall. reflexivity.
  - exact Hall.
  - intros p. rewrite (parse_message_frame_exact ty p) by exact Hf.
    rewrite Hm. reflexivity.
Qed.

Lemma unknown_tag_rejected_then_frame_decoded_witness :
  ITCHParser.byte_index ITCHParser.__init__ = 0
  /\ (0x5A ∉ tag_bytes)
  /\ is_frame DELETE_ORDER test_delete_frame
  /\ ITCHParser.feed_byte ITCHParser.__init__ 0x5A
     = Ok (ParsedMessage.default, ITCHParser.__init__)
  /\ exists m,
       ParsedMessage.order_ref m = 0x0102030405060708
       /\ feed_all ITCHParser.__init__ (0x5A :: test_delete_frame)
          = Ok (replicate 9 ParsedMessage.default ++ [m], ITCHParser.__init__).
Proof.
  assert (H0 : ITCHParser.byte_index ITCHParser.__init__ = 0) by reflexivity.
  assert (Hb : 0x5A ∉ tag_bytes)
    by (apply (bool_decide_unpack _); vm_compute; exact I).
  assert (Hf : is_frame DELETE_ORDER test_delete_frame)
    by (apply (bool_decide_unpack _); vm_compute; exact I).
  split; [exact H0|]. split; [exact Hb|]. split; [exact Hf|].
  destruct (unknown_tag_rejected_then_frame_decoded
              ITCHParser.__init__ 0x5A DELETE_ORDER test_delete_frame H0 Hb Hf)
    as (Hrej & _ & m & Hm & _ & _ & Hall & _).
  split; [exact Hrej|].
  exists m. split; [|exact Hall].
  vm_compute in Hm. injection Hm as <-. reflexivity.
Defined.

(** The frame a generator returns is decoded to the expected message also
    when an unrecognized byte was fed just before it. *)
Lemma unknown_tag_then_generated_frame (b : Z) (f : Fields) :
  b ∉ tag_bytes -> wire_ok f ->
  exists frame,
    encode f = Ok frame
    /\ feed_all ITCHParser.__init__ (b :: frame)
       = Ok (ParsedMessage.default
               :: replicate (length frame - 1) ParsedMessage.default
               ++ [expected f],
             ITCHParser.__init__).
Proof.
  intros Hb Hw. exists (layout f). split; [apply encode_ok, Hw|].
  pose proof (layout_is_frame f) as Hf.
  simpl. rewrite feed_byte_reject by (auto using not_tag_lookup). simpl.
  rewrite (feed_all_frame (kind_of f)) by exact Hf.
  rewrite decode_layout by exact Hw. simpl.
  apply is_frame_iff in Hf as (_ & -> & _). reflexivity.
Qed.

(** ** Side decoding (C6) *)

(** C6.  For every complete frame of a kind with a side field (AddOrder,
    Trade, AddOrderWithMpid), the decoder accepts the frame whatever the
    byte at offset 15 is, and sets [side] to 1 (Sell) when that byte is 0x53
    (['S']) and to 0 (Buy) for every other byte, 0x42 (['B']) included. *)
Theorem side_decoded_from_byte_15
    (p : ITCHParser.t) (ty : MessageType) (frame : list Z) :
  has_side ty ->
  is_frame ty frame ->
  exists b m,
    frame !! 15%nat = Some b
    /\ ITCHParser._decode_message (accumulating ty frame) = Ok m
    /\ ITCHParser.parse_message p frame = Ok (m, ITCHParser.__init__)
    /\ ParsedMessage.valid m = true
    /\ ParsedMessage.side m = (if decide (b = 0x53) then 1 else 0).
Proof.
  intros Hside Hf. pose proof Hf as (_ & Hlen & _)%is_frame_iff.
  destruct (frame !! 15%nat) as [b|] eqn:E; cycle 1.
  { apply lookup_ge_None in E.
    destruct Hside as [->|[->| ->]]; simpl in Hlen; lia. }
  exists b. rewrite (parse_message_frame_exact ty p) by exact Hf.
  unfold ITCHParser._decode_message, getitem. simpl.
  destruct Hside as [->|[->| ->]]; rewrite E; simpl;
    (eexists; repeat split; reflexivity).
Qed.

Lemma side_decoded_from_byte_15_witness :
  has_side ADD_ORDER
  /\ is_frame ADD_ORDER odd_side_frame
  /\ exists m,
       ITCHParser.parse_message ITCHParser.__init__ odd_side_frame
       = Ok (m, ITCHParser.__init__)
       /\ ParsedMessage.valid m = true
       /\ ParsedMessage.side m = 0.
Proof.
  assert (Hs : has_side ADD_ORDER) by (left; reflexivity).
  assert (Hf : is_frame ADD_ORDER odd_side_frame)
    by (apply (bool_decide_unpack _); vm_compute; exact I).
  split; [exact Hs|]. split; [exact Hf|].
  destruct (side_decoded_from_byte_15 ITCHParser.__init__ ADD_ORDER
              odd_side_frame Hs Hf) as (b & m & Hb & _ & Hp & Hv & Hsd).
  exists m. split; [exact Hp|]. split; [exact Hv|].
  vm_compute in Hb. injection Hb as <-. exact Hsd.
Defined.

(** ** Lifecycle of the assembler state (C9) *)

Section Lifecycle.

(** What [feed_byte] returns, case by case. *)
Lemma feed_byte_cases (s : ITCHParser.t) (b : Z) m s' :
  ITCHParser.feed_byte s b = Ok (m, s') ->
  (ITCHParser.byte_index s = 0 /\ MSG_CHAR_TO_TYPE !! b = None
   /\ m = ParsedMessage.default /\ s' = ITCHParser.__init__)
  \/ (exists ty, ITCHParser.byte_index s = 0
        /\ MSG_CHAR_TO_TYPE !! b = Some ty
        /\ m = ParsedMessage.default
        /\ ITCHParser.buffer s' = [b] /\ ITCHParser.byte_index s' = 1)
  \/ (ITCHParser.byte_index s <> 0
      /\ ITCHParser.byte_index s + 1 < ITCHParser.msg_length s
      /\ m = ParsedMessage.default
      /\ ITCHParser.buffer s' = ITCHParser.buffer s ++ [b]
      /\ ITCHParser.byte_index s' = ITCHParser.byte_index s + 1)
  \/ (ITCHParser.byte_index s <> 0
      /\ ITCHParser.byte_index s + 1 >= ITCHParser.msg_length s
      /\ ParsedMessage.valid m = true /\ s' = ITCHParser.__init__).
Proof.
  unfold ITCHParser.feed_byte.
  destruct (decide (ITCHParser.byte_index s = 0)) as [H0|H0].
  - destruct (MSG_CHAR_TO_TYPE !! b) as [ty|] eqn:E.
    + apply MSG_CHAR_TO_TYPE_Some in E as ->.
      unfold dict_get. rewrite MSG_LENGTHS_lookup. simpl. unfold bytearray.
      rewrite decide_True by (repeat constructor; apply tag_of_byte). simpl.
      unfold ITCHParser.feed_byte_count. simpl. rewrite H0.
      rewrite decide_False by (pose proof (frame_length_bounds ty); lia).
      intros [= <- <-]. right. left. exists ty. auto.
    + intros [= <- <-]. left. auto.
  - unfold bytearray_append. destruct (decide (is_byte b)); [|discriminate].
    simpl. unfold ITCHParser.feed_byte_count. simpl.
    destruct (decide (ITCHParser.byte_index s + 1 >= ITCHParser.msg_length s))
      as [Hge|Hlt].
    + destruct (ITCHParser._decode_message _) as [r|e] eqn:E; [|discriminate].
      simpl. intros [= <- <-]. apply decode_valid in E as [Hv _].
      right. right. right. auto.
    + intros [= <- <-]. right. right. left. simpl.
      repeat split; auto; lia.
Qed.

End Lifecycle.

(** C9.  A new parser is in the initial state (counter 0, no kind, target
    length cleared, empty buffer), and so is the parser after every
    [feed_byte] call that completes a frame, that is, a call inside a frame
    whose byte brings the byte counter to the target length (the test
    [self.byte_index >= self.msg_length] of the code), or that rejects an
    unrecognized first byte: the state after such a call is the state of a
    new parser, whatever the state before.  The calls that complete a frame
    are exactly the calls that return a valid message, and, where the
    counter is the length of the buffer, exactly the calls inside a frame
    whose byte makes the buffer reach the target length. *)
Theorem assembler_returns_to_initial_state
    (s : ITCHParser.t) (b : Z) (m : ParsedMessage.t) (s' : ITCHParser.t) :
  ITCHParser.feed_byte s b = Ok (m, s') ->
  (ITCHParser.byte_index s <> 0
   /\ ITCHParser.byte_index s + 1 >= ITCHParser.msg_length s)
  \/ ParsedMessage.valid m = true
  \/ (ITCHParser.byte_index s = 0 /\ MSG_CHAR_TO_TYPE !! b = None) ->
  is_initial ITCHParser.__init__
  /\ (forall p, ITCHParser.reset p = ITCHParser.__init__)
  /\ s' = ITCHParser.__init__
  /\ is_initial s'
  /\ (ParsedMessage.valid m = true
      <-> ITCHParser.byte_index s <> 0
          /\ ITCHParser.byte_index s + 1 >= ITCHParser.msg_length s)
  /\ (ITCHParser.byte_index s = Z.of_nat (length (ITCHParser.buffer s)) ->
      (ParsedMessage.valid m = true
       <-> ITCHParser.buffer s <> []
           /\ Z.of_nat (length (ITCHParser.buffer s ++ [b]))
              >= ITCHParser.msg_length s)).
Proof.
  intros Hfeed Hcase.
  assert (Hinit : is_initial ITCHParser.__init__) by (repeat split).
  split; [exact Hinit|]. split; [reflexivity|].
  destruct (feed_byte_cases s b m s' Hfeed)
    as [(H0 & Hn & -> & ->)|[(ty & H0 & Hty & -> & _)|[(Hne & Hlt & -> & _)
       |(Hne & Hge & Hv & ->)]]].
  - split; [reflexivity|]. split; [exact Hinit|]. split.
    + split; [discriminate|]. intros [Hne _]. contradiction.
    + intros Hidx. split; [discriminate|]. intros [Hbuf _].
      destruct (ITCHParser.buffer s); [congruence|simpl in Hidx; lia].
  - destruct Hcase as [[Hne _]|[Hv|[_ Hn]]];
      [contradiction|discriminate|congruence].
  - destruct Hcase as [[_ Hge]|[Hv|[H0 _]]]; [lia|discriminate|contradiction].
  - split; [reflexivity|]. split; [exact Hinit|]. split; [split; auto|].
    intros Hidx. split; [|intros _; exact Hv]. intros _. split.
    + intros Hbuf. rewrite Hbuf in Hidx. simpl in Hidx. contradiction.
    + rewrite length_app. simpl. lia.
Qed.

Lemma assembler_returns_to_initial_state_witness :
  ITCHParser.feed_byte (accumulating CANCEL_ORDER (0x58 :: replicate 21 7)) 9
  = Ok (expected (CancelOrder 0x070707070707 0x0707070707070707 0x07070707),
        ITCHParser.__init__)
  /\ (ITCHParser.byte_index (accumulating CANCEL_ORDER (0x58 :: replicate 21 7))
      <> 0
      /\ ITCHParser.byte_index
           (accumulating CANCEL_ORDER (0x58 :: replicate 21 7)) + 1
         >= ITCHParser.msg_length
              (accumulating CANCEL_ORDER (0x58 :: replicate 21 7)))
  /\ is_initial ITCHParser.__init__.
Proof.
  assert (Hfeed : ITCHParser.feed_byte
                    (accumulating CANCEL_ORDER (0x58 :: replicate 21 7)) 9
                  = Ok (expected (CancelOrder 0x070707070707
                                    0x0707070707070707 0x07070707),
                        ITCHParser.__init__))
    by (vm_compute; reflexivity).
  assert (Hfull : ITCHParser.byte_index
                    (accumulating CANCEL_ORDER (0x58 :: replicate 21 7)) <> 0
                  /\ ITCHParser.byte_index
                       (accumulating CANCEL_ORDER (0x58 :: replicate 21 7)) + 1
                     >= ITCHParser.msg_length
                          (accumulating CANCEL_ORDER (0x58 :: replicate 21 7)))
    by (vm_compute; split; discriminate).
  split; [exact Hfeed|]. split; [exact Hfull|].
  exact (proj1 (proj2 (proj2 (proj2
           (assembler_returns_to_initial_state _ _ _ _ Hfeed
              (or_introl Hfull)))))).
Defined.

(** ** Rejected against incomplete (C10) *)

(** C10.  [feed_byte] returns one and the same value, the default
    [ParsedMessage] with [valid=False] and every field zero, for an
    unrecognized first byte and for a mid-frame byte that does not complete
    the frame; more generally every result of [feed_byte] that is not valid
    is that value. *)
Theorem rejected_and_incomplete_results_identical
    (s1 s2 : ITCHParser.t) (b1 b2 : Z) :
  ITCHParser.byte_index s1 = 0 ->
  MSG_CHAR_TO_TYPE !! b1 = None ->
  ITCHParser.byte_index s2 <> 0 ->
  ITCHParser.byte_index s2 + 1 < ITCHParser.msg_length s2 ->
  is_byte b2 ->
  (exists q1 q2,
     ITCHParser.feed_byte s1 b1 = Ok (ParsedMessage.default, q1)
     /\ ITCHParser.feed_byte s2 b2 = Ok (ParsedMessage.default, q2))
  /\ ParsedMessage.default = ParsedMessage.make false (Some 0) 0 0 0 0 0 0 0
  /\ (forall s b m s',
        ITCHParser.feed_byte s b = Ok (m, s') ->
        ParsedMessage.valid m = false -> m = ParsedMessage.default).
Proof.
  intros H0 Hn Hne Hlt Hb. split; [|split; [reflexivity|]].
  - exists ITCHParser.__init__. eexists. split; [apply feed_byte_reject; auto|].
    unfold ITCHParser.feed_byte. rewrite decide_False by assumption.
    unfold bytearray_append. rewrite decide_True by assumption. simpl.
    unfold ITCHParser.feed_byte_count. simpl.
    rewrite decide_False by lia. reflexivity.
  - intros s b m s' Hfeed Hv.
    destruct (feed_byte_cases s b m s' Hfeed)
      as [(_ & _ & -> & _)|[(ty & _ & _ & -> & _)|[(_ & _ & -> & _)
         |(_ & _ & Hv' & _)]]]; try reflexivity.
    congruence.
Qed.

Lemma rejected_and_incomplete_results_identical_witness :
  exists q1 q2,
    ITCHParser.feed_byte ITCHParser.__init__ 0x5A
    = Ok (ParsedMessage.default, q1)
    /\ ITCHParser.feed_byte (accumulating DELETE_ORDER [0x44]) 0x01
       = Ok (ParsedMessage.default, q2).
Proof.
  refine (proj1 (rejected_and_incomplete_results_identical
                   ITCHParser.__init__ (accumulating DELETE_ORDER [0x44])
                   0x5A 0x01 _ _ _ _ _)).
  - reflexivity.
  - vm_compute. reflexivity.
  - vm_compute. discriminate.
  - vm_compute. reflexivity.
  - unfold is_byte. lia.
Defined.

(** * Further properties of the code *)

(** ** The generators: errors and normalisation *)

Section Generators.

Lemma encode_ascii_raises (s : string) :
  ~ ascii_only s -> encode_ascii s = Raise UnicodeEncodeError.
Proof.
  unfold ascii_only. induction s as [|c s IH]; simpl; intros H.
  - destruct H. constructor.
  - destruct (decide (ord c < 128)) as [Hc|Hc]; [|reflexivity].
    rewrite IH; [reflexivity|]. intros Hs. apply H. constructor; assumption.
Qed.

Lemma list_ascii_padded (s : string) (w : nat) :
  list_ascii_of_string (str_take w (ljust s w))
  = take w (list_ascii_of_string s)
    ++ replicate (w - String.length s) " "%char.
Proof.
  unfold ljust.
  rewrite list_ascii_take, list_ascii_append,
    list_ascii_of_string_of_list_ascii.
  rewrite take_app, take_replicate, list_ascii_length.
  f_equal. f_equal. lia.
Qed.

Lemma padded_ascii_iff (s : string) (w : nat) :
  ascii_only (str_take w (ljust s w)) <-> ascii_only (str_take w s).
Proof.
  unfold ascii_only. rewrite list_ascii_padded, list_ascii_take, Forall_app.
  split; [intros [H _]; exact H|]. intros H. split; [exact H|].
  apply Forall_replicate. vm_compute. reflexivity.
Qed.

Lemma encode_text (s : string) (w : nat) :
  encode_ascii (str_take w (ljust s w))
  = if decide (ascii_only (str_take w s)) then Ok (padded s w)
    else Raise UnicodeEncodeError.
Proof.
  destruct (decide (ascii_only (str_take w s))) as [H|H].
  - apply encode_ascii_ok, padded_ascii_iff, H.
  - apply encode_ascii_raises. rewrite padded_ascii_iff. exact H.
Qed.

Lemma to_bytes_cases (n : Z) (len : nat) :
  to_bytes n len
  = if decide (unsigned (8 * Z.of_nat len) n) then Ok (be_digits len n)
    else Raise OverflowError.
Proof. reflexivity. Qed.

End Generators.

(** X1.  A generator raises [UnicodeEncodeError] when the kept part of a
    text argument (the first 8 characters of the stock, the first 4 of the
    MPID) holds a character outside ASCII, whatever its integer arguments
    are; with ASCII text it raises [OverflowError] when an integer argument
    is negative or exceeds its wire width; otherwise it returns the frame.
    Characters past the kept part are cut before the encoding and never
    raise. *)
Theorem encode_outcome (f : Fields) :
  encode f
  = if decide (text_ok f) then
      if decide (ints_ok f) then Ok (layout f) else Raise OverflowError
    else Raise UnicodeEncodeError.
Proof.
  destruct f; unfold encode, text_ok, ints_ok, layout, gen_delete_order,
    gen_add_order, gen_cancel_order, gen_executed_order, gen_replace_order,
    gen_trade, gen_add_order_mpid, gen_executed_price, gen_broken_trade;
    rewrite ?encode_text, ?to_bytes_cases;
    change (8 * Z.of_nat 6) with 48; change (8 * Z.of_nat 8) with 64;
    change (8 * Z.of_nat 4) with 32;
    repeat case_decide; simpl; try reflexivity; tauto.
Qed.

Section Normalisation.

Lemma list_ascii_inj (s1 s2 : string) :
  list_ascii_of_string s1 = list_ascii_of_string s2 -> s1 = s2.
Proof.
  intros H. rewrite <- (string_of_list_ascii_of_string s1),
    <- (string_of_list_ascii_of_string s2), H. reflexivity.
Qed.

Lemma fixed_width_length (s : string) (w : nat) :
  String.length (str_take w (ljust s w)) = w.
Proof.
  rewrite <- list_ascii_length, list_ascii_padded, length_app, length_take,
    length_replicate, list_ascii_length. lia.
Qed.

Lemma fixed_width_idem (s : string) (w : nat) :
  str_take w (ljust (str_take w (ljust s w)) w) = str_take w (ljust s w).
Proof.
  apply list_ascii_inj. rewrite (list_ascii_padded (str_take w (ljust s w))).
  rewrite fixed_width_length, Nat.sub_diag, app_nil_r.
  apply take_ge. rewrite list_ascii_length, fixed_width_length. lia.
Qed.

Lemma side_byte_normal (sd : string) :
  side_byte (if decide (sd = "S"%string) then "S"%string else "B"%string)
  = side_byte sd.
Proof. unfold side_byte. destruct (decide (sd = "S"%string)); reflexivity. Qed.

End Normalisation.

(** X2.  A generator reads its side argument only as ['S'] or not ['S'] and
    its text arguments only through their first 8 (stock) or 4 (MPID)
    characters, padded with spaces: replacing every other side by ['B'] and
    every text by its cut and padded form changes nothing in what the
    generator returns or raises, and a second replacement changes nothing
    more. *)
Theorem encode_normalise (f : Fields) :
  encode (normalise f) = encode f
  /\ normalise (normalise f) = normalise f.
Proof.
  destruct f; simpl; try (split; reflexivity);
    unfold gen_add_order, gen_trade, gen_add_order_mpid;
    rewrite ?fixed_width_idem, ?side_byte_normal;
    (split; [reflexivity|]);
    destruct (decide (side = "S"%string)); reflexivity.
Qed.

(** ** The decoder: ranges of the decoded fields *)

Section Ranges.

Lemma from_bytes_bound (bs : list Z) :
  Forall is_byte bs -> 0 <= from_bytes bs < 256 ^ Z.of_nat (length bs).
Proof.
  induction bs as [|b bs IH] using rev_ind; intros H.
  - unfold from_bytes. simpl. lia.
  - apply Forall_app in H as [Hbs Hb]. inversion Hb as [|? ? Hb' _]; subst.
    specialize (IH Hbs). unfold is_byte in Hb'.
    rewrite from_bytes_snoc, length_app. simpl.
    replace (Z.of_nat (length bs + 1)) with (Z.of_nat (length bs) + 1) by lia.
    rewrite Z.pow_add_r by lia. lia.
Qed.

Lemma slice_bytes (lo hi : nat) (buf : list Z) :
  Forall is_byte buf -> Forall is_byte (slice lo hi buf).
Proof. intros H. unfold slice. apply Forall_take, Forall_drop, H. Qed.

Lemma slice_length (lo hi : nat) (buf : list Z) :
  (length (slice lo hi buf) <= hi - lo)%nat.
Proof. unfold slice. rewrite length_take. lia. Qed.

Lemma slice_unsigned (lo hi : nat) (w : Z) (buf : list Z) :
  Forall is_byte buf -> w = 8 * Z.of_nat (hi - lo) ->
  unsigned w (from_bytes (slice lo hi buf)).
Proof.
  intros H ->. pose proof (from_bytes_bound _ (slice_bytes lo hi buf H)) as Hb.
  pose proof (slice_length lo hi buf) as Hl. unfold unsigned.
  split; [lia|]. eapply Z.lt_le_trans; [apply Hb|].
  replace (2 ^ (8 * Z.of_nat (hi - lo))) with (256 ^ Z.of_nat (hi - lo))
    by (rewrite Z.pow_mul_r by lia; reflexivity).
  apply Z.pow_le_mono_r; lia.
Qed.

Lemma unsigned_0 (w : Z) : 0 <= w -> unsigned w 0.
Proof. intros H. unfold unsigned. split; [lia|]. apply Z.pow_pos_nonneg; lia. Qed.

Lemma decode_ranges (s : ITCHParser.t) (m : ParsedMessage.t) :
  Forall is_byte (ITCHParser.buffer s) ->
  ITCHParser._decode_message s = Ok m ->
  in_wire_ranges m.
Proof.
  intros Hb. unfold ITCHParser._decode_message.
  destruct (ITCHParser.msg_type s) as [[]|]; simpl;
    try destruct (getitem (ITCHParser.buffer s) 15) as [b|e]; simpl;
    try discriminate; intros [= <-]; unfold in_wire_ranges; simpl;
    (split; [|split; [|split; [|split; [|split; [|split]]]]]);
    try (apply slice_unsigned; [exact Hb|reflexivity]);
    try (apply unsigned_0; lia);
    try (destruct (decide (b = ord "S")); auto);
    auto.
Qed.

Lemma default_ranges : in_wire_ranges ParsedMessage.default.
Proof.
  unfold in_wire_ranges. simpl.
  (split; [|split; [|split; [|split; [|split; [|split]]]]]);
    try (apply unsigned_0; lia).
  auto.
Qed.

(** The accumulation buffer holds bytes, whatever integers are fed. *)
Lemma feed_byte_ranges (s : ITCHParser.t) (b : Z) m s' :
  Forall is_byte (ITCHParser.buffer s) ->
  ITCHParser.feed_byte s b = Ok (m, s') ->
  in_wire_ranges m /\ Forall is_byte (ITCHParser.buffer s').
Proof.
  intros Hb. unfold ITCHParser.feed_byte.
  assert (Htail : forall st,
            Forall is_byte (ITCHParser.buffer st) ->
            ITCHParser.feed_byte_count st = Ok (m, s') ->
            in_wire_ranges m /\ Forall is_byte (ITCHParser.buffer s')).
  { intros st Hst. unfold ITCHParser.feed_byte_count. case_decide.
    - destruct (ITCHParser._decode_message _) as [r|e] eqn:E; [|discriminate].
      simpl. intros [= <- <-]. split; [|constructor].
      apply (decode_ranges _ _ Hst E).
    - intros [= <- <-]. split; [apply default_ranges|exact Hst]. }
  case_decide.
  - destruct (MSG_CHAR_TO_TYPE !! b) as [ty|].
    + destruct (dict_get MSG_LENGTHS ty) as [len|e]; [|discriminate]. simpl.
      unfold bytearray. case_decide; [|discriminate]. simpl.
      apply Htail. assumption.
    + intros [= <- <-]. split; [apply default_ranges|constructor].
  - unfold bytearray_append. case_decide; [|discriminate]. simpl.
    apply Htail. simpl. apply Forall_app. split; [exact Hb|].
    constructor; [assumption|constructor].
Qed.

Lemma feed_all_ranges (data : list Z) (s : ITCHParser.t) rs s' :
  Forall is_byte (ITCHParser.buffer s) ->
  feed_all s data = Ok (rs, s') ->
  Forall in_wire_ranges rs /\ Forall is_byte (ITCHParser.buffer s').
Proof.
  revert s rs. induction data as [|b data IH]; intros s rs Hb; simpl.
  - intros [= <- <-]. split; [constructor|exact Hb].
  - destruct (ITCHParser.feed_byte s b) as [[m1 s1]|e] eqn:E1; [|discriminate].
    simpl. destruct (feed_all s1 data) as [[rs1 s2]|e] eqn:E2; [|discriminate].
    simpl. intros [= <- <-].
    destruct (feed_byte_ranges _ _ _ _ Hb E1) as [Hm Hb1].
    destruct (IH _ _ Hb1 E2) as [Hrs Hb2]. split; [constructor|]; assumption.
Qed.

Lemma parse_loop_ranges (data : list Z) (s : ITCHParser.t) m q :
  Forall is_byte (ITCHParser.buffer s) ->
  ITCHParser.parse_loop s data = Ok (m, q) ->
  in_wire_ranges m.
Proof.
  revert s. induction data as [|b data IH]; intros s Hb; simpl.
  - intros [= <- <-]. apply default_ranges.
  - destruct (ITCHParser.feed_byte s b) as [[m1 s1]|e] eqn:E1; [|discriminate].
    simpl. destruct (feed_byte_ranges _ _ _ _ Hb E1) as [Hm Hb1].
    destruct (ParsedMessage.valid m1).
    + intros [= <- <-]. exact Hm.
    + apply IH, Hb1.
Qed.

End Ranges.

(** X3.  Whatever integers are fed, every message [parse_message] returns
    has its fields within their wire widths, and so has every message the
    stream of [feed_byte] calls returns from a new parser: [timestamp] below
    2^48, [order_ref], [new_order_ref] and [misc_data] below 2^64, [shares]
    and [price] below 2^32, none negative, and [side] 0 or 1.  The two hold
    apart: [parse_message] may return where the stream over the same data
    raises further on. *)
Theorem results_fit_wire_widths (p : ITCHParser.t) (data : list Z) :
  (forall (m : ParsedMessage.t) (q : ITCHParser.t),
     ITCHParser.parse_message p data = Ok (m, q) -> in_wire_ranges m)
  /\ (forall (rs : list ParsedMessage.t) (s : ITCHParser.t),
        feed_all ITCHParser.__init__ data = Ok (rs, s) ->
        Forall in_wire_ranges rs).
Proof.
  split.
  - intros m q Hp.
    apply (parse_loop_ranges data ITCHParser.__init__ m q); [constructor|].
    exact Hp.
  - intros rs s Hf.
    apply (feed_all_ranges data ITCHParser.__init__ rs s); [constructor|].
    exact Hf.
Qed.

Lemma results_fit_wire_widths_witness :
  feed_all ITCHParser.__init__ (test_delete_frame ++ [0x44; 300])
  = Raise ValueError
  /\ exists m q,
       ITCHParser.parse_message ITCHParser.__init__
         (test_delete_frame ++ [0x44; 300])
       = Ok (m, q)
       /\ ParsedMessage.valid m = true
       /\ in_wire_ranges m.
Proof.
  split; [vm_compute; reflexivity|].
  assert (Hp : ITCHParser.parse_message ITCHParser.__init__
                 (test_delete_frame ++ [0x44; 300])
               = Ok (expected (DeleteOrder 0x0102030405060708),
                     ITCHParser.__init__))
    by (vm_compute; reflexivity).
  eexists _, _. split; [exact Hp|]. split; [reflexivity|].
  exact (proj1 (results_fit_wire_widths ITCHParser.__init__
                  (test_delete_frame ++ [0x44; 300])) _ _ Hp).
Defined.

(** ** The assembler on longer streams *)

Section LongStreams.

Lemma parse_loop_junk (junk tail : list Z) :
  Forall (fun b => b ∉ tag_bytes) junk ->
  ITCHParser.parse_loop ITCHParser.__init__ (junk ++ tail)
  = ITCHParser.parse_loop ITCHParser.__init__ tail.
Proof.
  induction junk as [|b junk IH]; intros H; [reflexivity|].
  inversion H as [|? ? Hb Hj]; subst. simpl.
  rewrite feed_byte_reject by (auto using not_tag_lookup). simpl.
  apply IH, Hj.
Qed.

Lemma feed_all_junk (junk : list Z) :
  Forall (fun b => b ∉ tag_bytes) junk ->
  feed_all ITCHParser.__init__ junk
  = Ok (replicate (length junk) ParsedMessage.default, ITCHParser.__init__).
Proof.
  induction junk as [|b junk IH]; intros H; [reflexivity|].
  inversion H as [|? ? Hb Hj]; subst. simpl.
  rewrite feed_byte_reject by (auto using not_tag_lookup). simpl.
  rewrite IH by exact Hj. reflexivity.
Qed.

Lemma filter_valid_default (n : nat) :
  filter (fun m => ParsedMessage.valid m = true)
    (replicate n ParsedMessage.default) = [].
Proof.
  induction n as [|n IH]; [reflexivity|]. simpl.
  rewrite filter_cons_False by discriminate. exact IH.
Qed.

End LongStreams.

(** X4.  [parse_message] skips unrecognized bytes before a frame, one at a
    time, and reads nothing after the frame: for bytes [junk] none of which
    is a tag (integers outside the byte range included), a complete frame
    and any [rest], the call on [junk ++ frame ++ rest] returns the valid
    decoding of [frame] and the initial state, exactly as the call on
    [frame] alone. *)
Theorem parse_message_skips_leading_junk
    (p : ITCHParser.t) (ty : MessageType) (junk frame rest : list Z) :
  Forall (fun b => b ∉ tag_bytes) junk ->
  is_frame ty frame ->
  exists m,
    ITCHParser._decode_message (accumulating ty frame) = Ok m
    /\ ParsedMessage.valid m = true
    /\ ITCHParser.parse_message p (junk ++ frame ++ rest)
       = Ok (m, ITCHParser.__init__)
    /\ ITCHParser.parse_message p frame = Ok (m, ITCHParser.__init__).
Proof.
  intros Hj Hf. pose proof Hf as (_ & Hlen & _)%is_frame_iff.
  destruct (decode_total ty frame Hlen) as [m Hm].
  exists m. split; [exact Hm|]. split; [apply (decode_valid _ _ Hm)|].
  split.
  - unfold ITCHParser.parse_message. rewrite parse_loop_junk by exact Hj.
    change (ITCHParser.parse_loop ITCHParser.__init__ (frame ++ rest))
      with (ITCHParser.parse_message p (frame ++ rest)).
    rewrite (parse_message_frame ty) by exact Hf. rewrite Hm. reflexivity.
  - rewrite (parse_message_frame_exact ty) by exact Hf. rewrite Hm.
    reflexivity.
Qed.

Lemma parse_message_skips_leading_junk_witness :
  exists m,
    ITCHParser.parse_message ITCHParser.__init__
      ([0x5A; 0x00; 300] ++ test_delete_frame ++ [0x41; 0x42])
    = Ok (m, ITCHParser.__init__)
    /\ ITCHParser.parse_message ITCHParser.__init__ test_delete_frame
       = Ok (m, ITCHParser.__init__).
Proof.
  assert (Hj : Forall (fun b => b ∉ tag_bytes) [0x5A; 0x00; 300])
    by (apply (bool_decide_unpack _); vm_compute; exact I).
  assert (Hf : is_frame DELETE_ORDER test_delete_frame)
    by (apply (bool_decide_unpack _); vm_compute; exact I).
  destruct (parse_message_skips_leading_junk ITCHParser.__init__ DELETE_ORDER
              [0x5A; 0x00; 300] test_delete_frame [0x41; 0x42] Hj Hf)
    as (m & _ & _ & H1 & H2).
  exists m. split; [exact H1|exact H2].
Defined.

(** X5.  Frames fed back to back are taken apart by their tags alone: for
    any sequence of complete frames, feeding their concatenation to a new
    parser returns one result per byte, the valid results among them are, in
    order, the decodings of the frames, and the parser ends in its initial
    state. *)
Theorem stream_of_frames_decoded (frames : list (MessageType * list Z)) :
  Forall (fun tf => is_frame tf.1 tf.2) frames ->
  exists rs ms,
    feed_all ITCHParser.__init__ (concat (snd <$> frames))
    = Ok (rs, ITCHParser.__init__)
    /\ length rs = length (concat (snd <$> frames))
    /\ Forall2 (fun tf m =>
                  ITCHParser._decode_message (accumulating tf.1 tf.2) = Ok m)
         frames ms
    /\ filter (fun m => ParsedMessage.valid m = true) rs = ms.
Proof.
  induction frames as [|[ty frame] frames IH]; intros H.
  - exists [], []. repeat split; constructor.
  - inversion H as [|? ? Hf Hfs]; subst. simpl in Hf.
    destruct (IH Hfs) as (rs & ms & Efeed & Elen & Hdec & Hfil).
    pose proof Hf as (_ & Hlen & _)%is_frame_iff.
    destruct (decode_total ty frame Hlen) as [m Hm].
    pose proof (decode_valid _ _ Hm) as [Hv _].
    exists ((replicate (frame_length ty - 1) ParsedMessage.default ++ [m]) ++ rs),
      (m :: ms).
    change (concat (snd <$> (ty, frame) :: frames))
      with (frame ++ concat (snd <$> frames)).
    split; [|split; [|split]].
    + erewrite feed_all_app;
        [|rewrite (feed_all_frame ty) by exact Hf; rewrite Hm; reflexivity].
      rewrite Efeed. reflexivity.
    + rewrite !length_app, length_replicate, Elen, Hlen. simpl.
      pose proof (frame_length_bounds ty). lia.
    + constructor; assumption.
    + rewrite !filter_app, filter_valid_default. simpl app.
      rewrite filter_cons_True by exact Hv. rewrite filter_nil, Hfil.
      reflexivity.
Qed.

Lemma stream_of_frames_decoded_witness :
  exists rs,
    feed_all ITCHParser.__init__ (test_delete_frame ++ odd_side_frame)
    = Ok (rs, ITCHParser.__init__)
    /\ length (filter (fun m => ParsedMessage.valid m = true) rs) = 2%nat.
Proof.
  assert (H : Forall (fun tf : MessageType * list Z => is_frame tf.1 tf.2)
                [(DELETE_ORDER, test_delete_frame); (ADD_ORDER, odd_side_frame)])
    by (apply (bool_decide_unpack _); vm_compute; exact I).
  destruct (stream_of_frames_decoded _ H) as (rs & ms & Ef & _ & Hd & Hfil).
  exists rs. split.
  - exact Ef.
  - rewrite Hfil. symmetry. exact (Forall2_length _ _ _ Hd).
Defined.

(** ** The assembler: state invariant and exceptions *)

Section Consistency.

Lemma consistent_cases (s : ITCHParser.t) :
  consistent s
  <-> s = ITCHParser.__init__
      \/ exists ty buf,
           s = accumulating ty buf
           /\ head buf = Some (tag_of ty)
           /\ (0 < length buf < frame_length ty)%nat
           /\ Forall is_byte buf.
Proof.
  split.
  - destruct s as [idx mt len buf res]. unfold consistent. simpl.
    intros (-> & Hb & -> & H). destruct mt as [ty|].
    + right. destruct H as (Htag & Hlen & Hidx).
      rewrite MSG_LENGTHS_lookup in Hlen. injection Hlen as <-.
      exists ty, buf. split; [reflexivity|].
      destruct buf as [|b buf]; [discriminate|]. simpl in Htag.
      apply MSG_CHAR_TO_TYPE_Some in Htag as ->.
      split; [reflexivity|]. split; [lia|exact Hb].
    + left. destruct H as [-> ->]. reflexivity.
  - intros [->|(ty & buf & -> & Hhd & Hlen & Hb)].
    + unfold consistent. simpl. split; [reflexivity|].
      split; [constructor|]. split; [reflexivity|]. split; reflexivity.
    + unfold consistent. simpl. split; [reflexivity|]. split; [exact Hb|].
      split; [reflexivity|]. rewrite Hhd. simpl.
      rewrite MSG_CHAR_TO_TYPE_tag, MSG_LENGTHS_lookup.
      split; [reflexivity|]. split; [reflexivity|lia].
Qed.

Lemma nonempty_of_length (buf : list Z) : (0 < length buf)%nat -> buf <> [].
Proof. destruct buf; [simpl; lia|discriminate]. Qed.

Lemma head_snoc (buf : list Z) (b x : Z) :
  head buf = Some x -> head (buf ++ [b]) = Some x.
Proof. destruct buf; [discriminate|]. intros H. exact H. Qed.

Lemma feed_byte_consistent (s : ITCHParser.t) (b : Z) m s' :
  consistent s ->
  ITCHParser.feed_byte s b = Ok (m, s') ->
  consistent s'.
Proof.
  intros Hc. apply consistent_cases in Hc
    as [->|(ty & buf & -> & Hhd & Hlen & Hb)];
    intros Hfeed; apply consistent_cases.
  - destruct (MSG_CHAR_TO_TYPE !! b) as [ty|] eqn:E.
    + apply MSG_CHAR_TO_TYPE_Some in E as ->.
      rewrite feed_byte_tag in Hfeed by reflexivity.
      injection Hfeed as <- <-. right. exists ty, [tag_of ty].
      split; [reflexivity|]. split; [reflexivity|].
      pose proof (frame_length_bounds ty). simpl.
      split; [lia|]. apply Forall_cons_2; [apply tag_of_byte|constructor].
    + rewrite feed_byte_reject in Hfeed by auto.
      injection Hfeed as <- <-. left. reflexivity.
  - pose proof (nonempty_of_length buf (proj1 Hlen)) as Hne.
    destruct (decide (is_byte b)) as [Hbyte|Hbyte]; cycle 1.
    { unfold ITCHParser.feed_byte in Hfeed. simpl in Hfeed.
      rewrite decide_False in Hfeed by lia.
      unfold bytearray_append in Hfeed.
      rewrite decide_False in Hfeed by assumption. discriminate. }
    destruct (decide (length buf + 1 < frame_length ty)%nat) as [Hlt|Hge].
    + rewrite feed_byte_more in Hfeed by assumption.
      injection Hfeed as <- <-. right. exists ty, (buf ++ [b]).
      split; [reflexivity|]. split; [apply head_snoc, Hhd|].
      rewrite length_app. simpl. split; [lia|].
      apply Forall_app. split; [exact Hb|].
      apply Forall_cons_2; [exact Hbyte|constructor].
    + rewrite feed_byte_last in Hfeed by (auto; lia).
      destruct (ITCHParser._decode_message _) as [r|e]; [|discriminate].
      injection Hfeed as <- <-. left. reflexivity.
Qed.

End Consistency.

(** X6.  The attributes of the parser stay consistent: a new parser is
    consistent, and from a consistent parser every [feed_byte] call that
    returns leaves a consistent parser, whose buffer holds bytes only, as
    many as [byte_index] counts, at most 39 of them, starting (when not
    empty) with the tag of the kind the parser holds. *)
Theorem feed_byte_keeps_parser_consistent
    (s : ITCHParser.t) (b : Z) (m : ParsedMessage.t) (s' : ITCHParser.t) :
  consistent s ->
  ITCHParser.feed_byte s b = Ok (m, s') ->
  consistent ITCHParser.__init__
  /\ consistent s'
  /\ (length (ITCHParser.buffer s') <= 39)%nat.
Proof.
  intros Hc Hfeed.
  assert (Hinit : consistent ITCHParser.__init__)
    by (apply consistent_cases; left; reflexivity).
  pose proof (feed_byte_consistent s b m s' Hc Hfeed) as Hc'.
  split; [exact Hinit|]. split; [exact Hc'|].
  apply consistent_cases in Hc' as [->|(ty & buf & -> & _ & Hlen & _)].
  - simpl. lia.
  - simpl. pose proof (frame_length_bounds ty). lia.
Qed.

Lemma feed_byte_keeps_parser_consistent_witness :
  consistent (accumulating DELETE_ORDER [0x44; 0x01])
  /\ consistent (accumulating DELETE_ORDER [0x44; 0x01; 0x02]).
Proof.
  assert (Hc : consistent (accumulating DELETE_ORDER [0x44; 0x01])).
  { unfold consistent. simpl. split; [reflexivity|].
    split; [apply (bool_decide_unpack _); vm_compute; exact I|].
    split; [reflexivity|]. split; [vm_compute; reflexivity|].
    split; [vm_compute; reflexivity|lia]. }
  split; [exact Hc|].
  refine (proj1 (proj2 (feed_byte_keeps_parser_consistent
            (accumulating DELETE_ORDER [0x44; 0x01]) 0x02
            ParsedMessage.default
            (accumulating DELETE_ORDER [0x44; 0x01; 0x02]) Hc _))).
  vm_compute. reflexivity.
Defined.

(** X7.  From a consistent parser [feed_byte] raises in one case only:
    inside a frame, on an integer outside [range(256)], which
    [bytearray.append] refuses with [ValueError].  On a byte it never
    raises, and with no frame open it never raises on any integer: one that
    is no tag is rejected. *)
Theorem feed_byte_raises_only_on_non_byte_inside_frame
    (s : ITCHParser.t) (b : Z) (e : PyError) :
  consistent s ->
  ITCHParser.feed_byte s b = Raise e
  <-> e = ValueError /\ ITCHParser.byte_index s <> 0 /\ ~ is_byte b.
Proof.
  intros Hc. apply consistent_cases in Hc
    as [->|(ty & buf & -> & Hhd & Hlen & Hb)].
  - split.
    + destruct (MSG_CHAR_TO_TYPE !! b) as [ty|] eqn:E.
      * apply MSG_CHAR_TO_TYPE_Some in E as ->.
        rewrite feed_byte_tag by reflexivity. discriminate.
      * rewrite feed_byte_reject by auto. discriminate.
    + intros (_ & H & _). destruct H. reflexivity.
  - pose proof (nonempty_of_length buf (proj1 Hlen)) as Hne.
    destruct (decide (is_byte b)) as [Hbyte|Hbyte].
    + split; [|tauto].
      destruct (decide (length buf + 1 < frame_length ty)%nat) as [Hlt|Hge].
      * rewrite feed_byte_more by assumption. discriminate.
      * rewrite feed_byte_last by (auto; lia).
        destruct (decode_total ty (buf ++ [b])) as [m Hm];
          [rewrite length_app; simpl; lia|].
        rewrite Hm. discriminate.
    + unfold ITCHParser.feed_byte. simpl.
      rewrite decide_False by lia. unfold bytearray_append.
      rewrite decide_False by assumption. simpl.
      split; [intros [= <-]; split; [reflexivity|split; [lia|assumption]]|].
      intros (-> & _). reflexivity.
Qed.

Lemma feed_byte_raises_only_on_non_byte_inside_frame_witness :
  ITCHParser.feed_byte (accumulating DELETE_ORDER [0x44; 0x01]) 256
  = Raise ValueError
  /\ ITCHParser.feed_byte ITCHParser.__init__ 256
     = Ok (ParsedMessage.default, ITCHParser.__init__).
Proof.
  assert (Hc : consistent (accumulating DELETE_ORDER [0x44; 0x01])).
  { unfold consistent. simpl. split; [reflexivity|].
    split; [apply (bool_decide_unpack _); vm_compute; exact I|].
    split; [reflexivity|]. split; [vm_compute; reflexivity|].
    split; [vm_compute; reflexivity|lia]. }
  split; [|vm_compute; reflexivity].
  apply (feed_byte_raises_only_on_non_byte_inside_frame _ 256 ValueError Hc).
  split; [reflexivity|]. split; [vm_compute; discriminate|].
  unfold is_byte. lia.
Defined.

(** ** The decoder: what it reads and when it raises *)

Section DecoderReads.

Lemma slice_lookup (lo hi i : nat) (buf : list Z) :
  slice lo hi buf !! i
  = if decide (i < hi - lo)%nat then buf !! (lo + i)%nat else None.
Proof.
  unfold slice. case_decide.
  - rewrite lookup_take_lt by assumption. apply lookup_drop.
  - apply lookup_take_ge. lia.
Qed.

Lemma slice_ext (lo hi : nat) (buf1 buf2 : list Z) :
  (forall i, (lo <= i < hi)%nat -> buf1 !! i = buf2 !! i) ->
  slice lo hi buf1 = slice lo hi buf2.
Proof.
  intros H. apply list_eq. intros i. rewrite !slice_lookup.
  case_decide; [|reflexivity]. apply H. lia.
Qed.

End DecoderReads.

(** X8.  [_decode_message] raises in one case only: [IndexError], for a
    kind with a side field (AddOrder, Trade, AddOrderWithMpid) on a buffer
    of 15 bytes or fewer, where [buf[15]] does not exist.  Every other read
    is a slice, which Python cuts to the buffer, so that a buffer that is
    too short gives smaller numbers, not an exception. *)
Theorem decode_raises_only_on_missing_side_byte
    (s : ITCHParser.t) (e : PyError) :
  ITCHParser._decode_message s = Raise e
  <-> e = IndexError
      /\ (exists ty, ITCHParser.msg_type s = Some ty /\ has_side ty)
      /\ (length (ITCHParser.buffer s) <= 15)%nat.
Proof.
  unfold ITCHParser._decode_message, getitem, has_side.
  destruct (ITCHParser.msg_type s) as [ty|]; cycle 1.
  { split; [discriminate|]. intros (_ & (ty & H & _) & _). discriminate. }
  destruct (ITCHParser.buffer s !! 15%nat) as [b|] eqn:E.
  - apply lookup_lt_Some in E. split; [destruct ty; discriminate|].
    intros (_ & _ & H). lia.
  - apply lookup_ge_None in E. split.
    + destruct ty; simpl; try discriminate; intros [= <-];
        (split; [reflexivity|]; split; [eexists; split; [reflexivity|tauto]|lia]).
    + intros (-> & (ty' & [= <-] & [->|[->| ->]]) & _); reflexivity.
Qed.

(** X9.  The decoder reads a frame at fixed offsets only, [read_by]: two
    buffers that agree on the offsets read for the kind decode to the same
    message, or raise alike.  So the tag byte is not read again, the padding
    is not checked, and the stock of a Trade (bytes 20 to 27), the
    attribution of an AddOrderWithMpid (32 to 35) and the printable flag of
    an ExecutedWithPrice (27) have no effect on the result. *)
Theorem decode_depends_on_read_offsets_only
    (s1 s2 : ITCHParser.t) (ty : MessageType) :
  ITCHParser.msg_type s1 = Some ty ->
  ITCHParser.msg_type s2 = Some ty ->
  (forall i, read_by ty i ->
             ITCHParser.buffer s1 !! i = ITCHParser.buffer s2 !! i) ->
  ITCHParser._decode_message s1 = ITCHParser._decode_message s2.
Proof.
  intros H1 H2 H. unfold ITCHParser._decode_message, getitem.
  rewrite H1, H2.
  destruct ty; simpl in H;
    try rewrite (H 15%nat) by lia;
    repeat match goal with
      | |- context [slice ?lo ?hi (ITCHParser.buffer s1)] =>
          rewrite (slice_ext lo hi (ITCHParser.buffer s1)
                     (ITCHParser.buffer s2))
            by (intros i Hi; apply H; lia)
      end;
    reflexivity.
Qed.

Lemma decode_depends_on_read_offsets_only_witness :
  ITCHParser._decode_message
    (accumulating TRADE
       ([0x50] ++ replicate 19 1 ++ replicate 8 0x41 ++ replicate 12 2))
  = ITCHParser._decode_message
      (accumulating TRADE
         ([0x00] ++ replicate 19 1 ++ replicate 8 0x5A ++ replicate 12 2)).
Proof.
  apply (decode_depends_on_read_offsets_only _ _ TRADE);
    [reflexivity|reflexivity|].
  intros i [Hi|Hi];
    do 40 (destruct i as [|i]; [try lia; reflexivity|]); lia.
Defined.

(** X10.  A frame cut short is not lost by [parse_message]: on a proper,
    non-empty prefix of a complete frame the call returns the invalid
    default and leaves the prefix in the parser, and [feed_byte] calls on
    the missing bytes then return invalid results up to the last byte and
    there the valid decoding of the whole frame, with the parser back in its
    initial state. *)
Theorem cut_frame_completed_by_feed_byte
    (p : ITCHParser.t) (ty : MessageType) (pre post : list Z) :
  is_frame ty (pre ++ post) ->
  pre <> [] ->
  post <> [] ->
  exists m,
    ITCHParser._decode_message (accumulating ty (pre ++ post)) = Ok m
    /\ ParsedMessage.valid m = true
    /\ ITCHParser.parse_message p pre
       = Ok (ParsedMessage.default, accumulating ty pre)
    /\ feed_all (accumulating ty pre) post
       = Ok (replicate (length post - 1) ParsedMessage.default ++ [m],
             ITCHParser.__init__).
Proof.
  intros (Hhd & Hlen & Hb)%is_frame_iff Hpre Hpost.
  destruct (decode_total ty (pre ++ post) Hlen) as [m Hm].
  exists m. split; [exact Hm|]. split; [apply (decode_valid _ _ Hm)|].
  rewrite length_app in Hlen. apply Forall_app in Hb as [Hbpre Hbpost].
  destruct pre as [|t pre]; [congruence|]. simpl in Hhd. injection Hhd as ->.
  inversion Hbpre as [|? ? _ Hbpre']; subst.
  destruct post as [|x mid _] using rev_ind; [congruence|].
  apply Forall_app in Hbpost as [Hbmid Hbx]. inversion Hbx as [|? ? Hx _]; subst.
  rewrite length_app in Hlen. simpl in Hlen.
  split.
  - unfold ITCHParser.parse_message. simpl.
    rewrite feed_byte_tag by reflexivity. simpl.
    rewrite <- (app_nil_r pre) at 1.
    rewrite (parse_loop_more ty pre [tag_of ty]);
      [reflexivity|discriminate|assumption|simpl; lia].
  - erewrite feed_all_app; cycle 1.
    { apply (feed_all_more ty mid (tag_of ty :: pre));
        [discriminate|assumption|simpl; lia]. }
    simpl. rewrite feed_byte_last;
      [|discriminate|assumption|simpl; rewrite ?length_app; simpl; lia].
    simpl in Hm. simpl. rewrite <- (app_assoc pre mid [x]).
    rewrite Hm. simpl. rewrite length_app. simpl.
    replace (length mid + 1 - 1)%nat with (length mid) by lia.
    reflexivity.
Qed.

Lemma cut_frame_completed_by_feed_byte_witness :
  exists m,
    ITCHParser.parse_message ITCHParser.__init__ [0x44; 0x01; 0x02; 0x03]
    = Ok (ParsedMessage.default,
          accumulating DELETE_ORDER [0x44; 0x01; 0x02; 0x03])
    /\ feed_all (accumulating DELETE_ORDER [0x44; 0x01; 0x02; 0x03])
         [0x04; 0x05; 0x06; 0x07; 0x08]
       = Ok (replicate 4 ParsedMessage.default ++ [m], ITCHParser.__init__)
    /\ ParsedMessage.order_ref m = 0x0102030405060708.
Proof.
  assert (Hf : is_frame DELETE_ORDER
                 ([0x44; 0x01; 0x02; 0x03] ++ [0x04; 0x05; 0x06; 0x07; 0x08]))
    by (apply (bool_decide_unpack _); vm_compute; exact I).
  destruct (cut_frame_completed_by_feed_byte ITCHParser.__init__ DELETE_ORDER
              [0x44; 0x01; 0x02; 0x03] [0x04; 0x05; 0x06; 0x07; 0x08] Hf
              ltac:(discriminate) ltac:(discriminate))
    as (m & Hm & _ & Hp & Hfeed).
  exists m. split; [exact Hp|]. split; [exact Hfeed|].
  vm_compute in Hm. injection Hm as <-. reflexivity.
Defined.

(** ** The two tables of frame lengths *)

(** X11.  ITCH_config.py and itch_parser.py declare the same frame
    lengths: every kind's entry in the parser's [MSG_LENGTHS] is the entry
    of ITCH_config's [MSG_LENGTHS] under the kind's name there, and
    ITCH_config's table has no entry under another name. *)
Theorem config_lengths_are_registry_lengths :
  (forall ty : MessageType,
     ITCH_config.MSG_LENGTHS !! config_name ty = MSG_LENGTHS !! ty)
  /\ (forall k : string,
        is_Some (ITCH_config.MSG_LENGTHS !! k)
        <-> exists ty, k = config_name ty).
Proof.
  split.
  - intros ty. destruct ty; vm_compute; reflexivity.
  - intros k. split.
    + intros [n H]. apply elem_of_list_to_map_2 in H.
      repeat (apply elem_of_cons in H as [H|H];
              [injection H as -> _;
               first [ by exists ADD_ORDER | by exists CANCEL_ORDER
                     | by exists DELETE_ORDER | by exists EXECUTED_ORDER
                     | by exists REPLACE_ORDER | by exists TRADE
                     | by exists ADD_ORDER_MPID | by exists EXECUTED_PRICE
                     | by exists BROKEN_TRADE ]|]).
      apply elem_of_nil in H. contradiction.
    + intros [ty ->]. destruct ty; eexists; vm_compute; reflexivity.
Qed.

(** ** Frames that are encoded back *)

Section Reencode.

Lemma be_digits_from_bytes (bs : list Z) (n : nat) :
  length bs = n -> Forall is_byte bs ->
  be_digits n (from_bytes bs) = bs.
Proof.
  revert n. induction bs as [|b bs IH] using rev_ind; intros n Hn Hb.
  - subst n. reflexivity.
  - apply Forall_app in Hb as [Hbs Hb]. inversion Hb as [|? ? Hb' _]; subst.
    rewrite length_app, Nat.add_1_r. simpl be_digits.
    rewrite from_bytes_snoc. unfold is_byte in Hb'.
    replace ((from_bytes bs * 256 + b) / 256) with (from_bytes bs)
      by (apply Z.div_unique with b; lia).
    replace ((from_bytes bs * 256 + b) mod 256) with b
      by (apply Z.mod_unique with (from_bytes bs); lia).
    rewrite (IH (length bs)); auto.
Qed.

Lemma to_bytes_from_bytes (bs : list Z) (n : nat) :
  length bs = n -> Forall is_byte bs ->
  to_bytes (from_bytes bs) n = Ok bs.
Proof.
  intros Hn Hb. rewrite to_bytes_ok.
  - rewrite be_digits_from_bytes by assumption. reflexivity.
  - pose proof (from_bytes_bound bs Hb) as H. rewrite Hn in H.
    replace (2 ^ (8 * Z.of_nat n)) with (256 ^ Z.of_nat n)
      by (rewrite Z.pow_mul_r by lia; reflexivity).
    exact H.
Qed.

End Reencode.

(** A list of known length is a list of that many elements. *)
Ltac explode_list l L :=
  repeat (destruct l as [|? l]; simpl in L; [discriminate L|]);
  destruct l; [clear L|discriminate L].

(** X12.  DeleteOrder and ReplaceOrder frames carry nothing but their
    decoded fields: for every complete frame of one of these two kinds, the
    generator of the kind applied to the fields [parse_message] decodes
    returns the frame itself, byte for byte. *)
Theorem delete_and_replace_frames_encode_back
    (p : ITCHParser.t) (ty : MessageType) (frame : list Z) :
  is_frame ty frame ->
  ty = DELETE_ORDER \/ ty = REPLACE_ORDER ->
  exists m,
    ITCHParser.parse_message p frame = Ok (m, ITCHParser.__init__)
    /\ (if decide (ty = DELETE_ORDER)
        then gen_delete_order (ParsedMessage.order_ref m)
        else gen_replace_order (ParsedMessage.timestamp m)
               (ParsedMessage.order_ref m) (ParsedMessage.new_order_ref m)
               (ParsedMessage.shares m))
       = Ok frame.
Proof.
  intros Hf Hty. rewrite (parse_message_frame_exact ty p) by exact Hf.
  apply is_frame_iff in Hf as (Hhd & Hlen & Hb).
  destruct Hty as [-> | ->]; simpl in Hhd, Hlen;
    unfold ITCHParser._decode_message; simpl;
    (eexists; split; [reflexivity|]); simpl;
    unfold gen_delete_order, gen_replace_order;
    repeat match goal with
      | |- context [to_bytes (from_bytes ?bs) ?n] =>
          rewrite (to_bytes_from_bytes bs n)
            by (first [ unfold slice; rewrite length_take, length_drop; lia
                      | apply slice_bytes, Hb ])
      end;
    simpl; explode_list frame Hlen; injection Hhd as ->; reflexivity.
Qed.

Lemma delete_and_replace_frames_encode_back_witness :
  exists m,
    ITCHParser.parse_message ITCHParser.__init__ test_delete_frame
    = Ok (m, ITCHParser.__init__)
    /\ gen_delete_order (ParsedMessage.order_ref m) = Ok test_delete_frame.
Proof.
  assert (Hf : is_frame DELETE_ORDER test_delete_frame)
    by (apply (bool_decide_unpack _); vm_compute; exact I).
  exact (delete_and_replace_frames_encode_back ITCHParser.__init__
           DELETE_ORDER test_delete_frame Hf (or_introl eq_refl)).
Defined.

(** ** Distinct messages, distinct frames *)

Section Injectivity.

Lemma encode_Ok_inv (f : Fields) (frame : list Z) :
  encode f = Ok frame -> frame = layout f /\ ints_ok f.
Proof.
  destruct f; unfold encode, ints_ok, layout, gen_delete_order,
    gen_add_order, gen_cancel_order, gen_executed_order, gen_replace_order,
    gen_trade, gen_add_order_mpid, gen_executed_price, gen_broken_trade;
    rewrite ?encode_text, ?to_bytes_cases;
    change (8 * Z.of_nat 6) with 48; change (8 * Z.of_nat 8) with 64;
    change (8 * Z.of_nat 4) with 32;
    repeat case_decide; simpl; try discriminate;
    intros [= <-]; tauto.
Qed.

Lemma be_digits_inj (n : nat) (a b : Z) :
  unsigned (8 * Z.of_nat n) a -> unsigned (8 * Z.of_nat n) b ->
  be_digits n a = be_digits n b -> a = b.
Proof.
  intros Ha Hb H. rewrite <- (from_be_digits n a Ha), <- (from_be_digits n b Hb).
  rewrite H. reflexivity.
Qed.

Lemma ord_inj (c1 c2 : ascii) : ord c1 = ord c2 -> c1 = c2.
Proof.
  unfold ord. intros H. apply N2Z.inj in H.
  rewrite <- (ascii_N_embedding c1), <- (ascii_N_embedding c2), H.
  reflexivity.
Qed.

Lemma code_points_inj (s1 s2 : string) :
  code_points s1 = code_points s2 -> s1 = s2.
Proof.
  unfold code_points. intros H. apply list_ascii_inj.
  revert H. generalize (list_ascii_of_string s1) (list_ascii_of_string s2).
  intros l1. induction l1 as [|c1 l1 IH]; intros [|c2 l2]; simpl;
    try discriminate; [reflexivity|].
  intros [= Hc Hl]. apply ord_inj in Hc as ->. rewrite (IH l2 Hl).
  reflexivity.
Qed.

Lemma layout_head (f : Fields) : head (layout f) = Some (tag_of (kind_of f)).
Proof. destruct f; reflexivity. Qed.

Lemma side_byte_inj (sd1 sd2 : string) :
  side_byte sd1 = side_byte sd2 ->
  (if decide (sd1 = "S"%string) then "S"%string else "B"%string)
  = (if decide (sd2 = "S"%string) then "S"%string else "B"%string).
Proof.
  unfold side_byte.
  destruct (decide (sd1 = "S"%string)), (decide (sd2 = "S"%string));
    intros H; try reflexivity; vm_compute in H; discriminate H.
Qed.

End Injectivity.

(** The pieces of two equal layouts are equal, piece by piece. *)
Ltac peel_layout E :=
  repeat match type of E with
    | (_ ++ _) = (_ ++ _) =>
        let H := fresh "P" in
        apply app_inj_1 in E as [H E];
          [|rewrite ?length_cons, ?be_digits_length, ?padded_length;
            reflexivity]
    end.

(** X13.  Two messages that a generator turns into the same frame are the
    same message, up to what the generator itself ignores: they are of the
    same kind, have the same integer fields and the same printable flag, and
    their sides and texts agree once every side but ['S'] is read as ['B']
    and the texts are cut and padded to their widths. *)
Theorem encode_injective_up_to_normalise (f1 f2 : Fields) (frame : list Z) :
  encode f1 = Ok frame ->
  encode f2 = Ok frame ->
  normalise f1 = normalise f2.
Proof.
  intros (-> & Hi1)%encode_Ok_inv (E & Hi2)%encode_Ok_inv.
  assert (Hk : kind_of f1 = kind_of f2).
  { apply tag_of_inj. pose proof (layout_head f1) as H1.
    rewrite E, layout_head in H1. congruence. }
  destruct f1, f2; try discriminate Hk; clear Hk;
    simpl in Hi1, Hi2;
    repeat match goal with H : _ /\ _ |- _ => destruct H end;
    unfold layout in E; peel_layout E;
    repeat match goal with
      | H : be_digits ?n ?a = be_digits ?n ?b |- _ =>
          apply be_digits_inj in H; [subst a|assumption|assumption]
      | H : padded _ _ = padded _ _ |- _ =>
          apply code_points_inj in H
      | H : [side_byte _] = [side_byte _] |- _ =>
          injection H as H; apply side_byte_inj in H
      | H : [if ?b1 then _ else _] = [if ?b2 then _ else _] |- _ =>
          destruct b1, b2; try (vm_compute in H; discriminate H); clear H
      end;
    simpl; congruence.
Qed.

Lemma encode_injective_up_to_normalise_witness :
  normalise (AddOrder 1 2 "S" 3 "APPL" 4)
  = normalise (AddOrder 1 2 "S" 3 "APPL    extra" 4).
Proof.
  refine (encode_injective_up_to_normalise _ _
            ([0x41; 0; 0; 0; 0; 0; 1; 0; 0; 0; 0; 0; 0; 0; 2; 0x53;
              0; 0; 0; 3; 0x41; 0x50; 0x50; 0x4C; 0x20; 0x20; 0x20; 0x20;
              0; 0; 0; 4; 0; 0; 0; 0]) _ _);
    vm_compute; reflexivity.
Defined.

(** ** Round trip on everything a generator accepts *)

Section RoundTripAll.

Lemma padded_fixed_width (s : string) (w : nat) :
  padded (str_take w (ljust s w)) w = padded s w.
Proof. unfold padded. rewrite fixed_width_idem. reflexivity. Qed.

Lemma side_code_normal (sd : string) :
  side_code (if decide (sd = "S"%string) then "S"%string else "B"%string)
  = side_code sd.
Proof. unfold side_code. destruct (decide (sd = "S"%string)); reflexivity. Qed.

Lemma layout_normalise (f : Fields) : layout (normalise f) = layout f.
Proof.
  destruct f; simpl; rewrite ?padded_fixed_width, ?side_byte_normal;
    reflexivity.
Qed.

Lemma expected_normalise (f : Fields) : expected (normalise f) = expected f.
Proof.
  destruct f; simpl; rewrite ?padded_fixed_width, ?side_code_normal;
    reflexivity.
Qed.

Lemma kind_of_normalise (f : Fields) : kind_of (normalise f) = kind_of f.
Proof. destruct f; reflexivity. Qed.

Lemma wire_ok_normalise (f : Fields) :
  ints_ok f -> text_ok f -> wire_ok (normalise f).
Proof.
  destruct f; simpl; rewrite ?padded_ascii_iff; tauto.
Qed.

End RoundTripAll.

(** X14.  The round trip needs no more than a generator that returns:
    whenever a generator returns a frame, for any side string and for texts
    of any length whose kept part is ASCII, [parse_message] on the frame
    returns the valid message of the kind with the encoded integer fields,
    side 1 exactly for the side string ['S'], and for AddOrder and
    AddOrderWithMpid the padded stock as [misc_data]. *)
Theorem roundtrip_whenever_encoded
    (p : ITCHParser.t) (f : Fields) (frame : list Z) :
  encode f = Ok frame ->
  ITCHParser.parse_message p frame = Ok (expected f, ITCHParser.__init__).
Proof.
  intros Henc. pose proof Henc as (-> & Hi)%encode_Ok_inv.
  assert (Ht : text_ok f).
  { destruct (decide (text_ok f)) as [Ht|Ht]; [exact Ht|].
    exfalso. revert Henc.
    destruct f; unfold encode, gen_add_order, gen_trade, gen_add_order_mpid;
      simpl in Ht; try tauto;
      rewrite ?encode_text; repeat case_decide; simpl;
      solve [discriminate | tauto]. }
  rewrite (parse_message_frame_exact (kind_of f) p) by apply layout_is_frame.
  rewrite <- layout_normalise, <- kind_of_normalise, <- expected_normalise.
  rewrite decode_layout by (apply wire_ok_normalise; assumption).
  reflexivity.
Qed.

Lemma roundtrip_whenever_encoded_witness :
  exists frame,
    encode (AddOrder 1 2 "sell" 3 "APPL    extra" 4) = Ok frame
    /\ ITCHParser.parse_message ITCHParser.__init__ frame
       = Ok (expected (AddOrder 1 2 "sell" 3 "APPL    extra" 4),
             ITCHParser.__init__)
    /\ ParsedMessage.side (expected (AddOrder 1 2 "sell" 3 "APPL    extra" 4))
       = 0.
Proof.
  eexists. split; [vm_compute; reflexivity|]. split; [|reflexivity].
  apply roundtrip_whenever_encoded. vm_compute. reflexivity.
Defined.
